(** * Verification model of the nidaq_audioplayer GUI client

    Shallow embedding of the TypeScript/Svelte client code that talks to the
    playback server: the one-shot WebSocket sender, the media player's
    transport and volume controls, the progress-update throttle, the history
    store, the library store and the metadata cache refresh. *)

From Stdlib Require Import QArith Qround ZArith Lqa.
From stdpp Require Import base list gmap strings pretty.

Open Scope Z_scope.
Set Warnings "-register-all".

(** ** JSON values as the client builds and reads them *)

Inductive jval : Type :=
| JNull
| JBool (b : bool)
| JNum (q : Q)
| JStr (s : string)
| JArr (xs : list jval)
| JObj (fields : list (string * jval)).

(** A JS object literal whose properties may be [undefined]; [JSON.stringify]
    omits the properties whose value is [undefined]. *)
Definition js_object := list (string * option jval).

Definition json_stringify_object (o : js_object) : jval :=
  JObj (omap (fun '(k, v) => match v with Some x => Some (k, x) | None => None end) o).

Fixpoint obj_get (fs : list (string * jval)) (k : string) : option jval :=
  match fs with
  | [] => None
  | (k', v) :: fs' => if String.eqb k k' then Some v else obj_get fs' k
  end.

(** ** wsconnection.svelte.ts: [wsSendOnce] *)

Record ws_send := {
  ws_url : string;   (** the endpoint passed to [new WebSocket] *)
  ws_msg : jval      (** the JSON document sent in [onopen] *)
}.

(** [wsSendOnce({task, data})]: open [ws://localhost:21749] and send
    [JSON.stringify({ task, data })]. [data = None] is [undefined]. *)
Definition wsSendOnce (task : string) (data : option jval) : ws_send :=
  {| ws_url := "ws://localhost:21749";
     ws_msg := json_stringify_object [("task", Some (JStr task)); ("data", data)] |}.

(** A request as issued by a call of [wsSendOnce]: its task and data. *)
Definition request := (string * option jval)%type.

Definition send (r : request) : ws_send := wsSendOnce r.1 r.2.

(** ** player.svelte: transport controls *)

Record player_flags := {
  isPlaying : bool;
  playbackCompleted : bool  (** [undefined] until a play message sets it: falsy *)
}.

(** [togglePlayPause]: the requests it issues, in call order. *)
Definition togglePlayPause (s : player_flags) : list request :=
  if isPlaying s then [("pause", None)]
  else (if playbackCompleted s
        then [("seek", Some (JObj [("time", JNum 0%Q)]))]
        else [])
       ++ [("play", None)].

(** ** libraryInfo.svelte.ts: the persisted library store *)

(** The tauri store [library.json] as a map from keys to JSON values. *)
Abbreviation store := (gmap string jval).

Definition scanRecursiveLevelKey : string := "scanRecursiveLevel".

(** [setScanRecursiveLevel(store, level)]: [store.set] then [store.save]. *)
Definition setScanRecursiveLevel (st : store) (level : Q) : store :=
  <[scanRecursiveLevelKey := JNum level]> st.

(** [getScanRecursiveLevel(store)]: the new store and the returned level. *)
Definition getScanRecursiveLevel (st : store) : store * Q :=
  match st !! scanRecursiveLevelKey with
  | Some (JNum q) => (st, q)
  | _ => (setScanRecursiveLevel st 4%Q, 4%Q)
  end.

(** ** playerData.svelte.ts: audio assets *)

Record AudioChapterInfo := {
  timestamp : Q;   (** seconds *)
  title : string
}.

Record AudioInfo := {
  name : string;
  path : string;
  duration : Q;
  chapters : option (list AudioChapterInfo)
}.

(** [Array.prototype.findIndex], with [None] for [-1]. *)
Fixpoint findIndex {A} (p : A -> bool) (l : list A) : option nat :=
  match l with
  | [] => None
  | x :: l' => if p x then Some 0%nat else S <$> findIndex p l'
  end.

(** [arr.splice(i, 1)]: remove the element at index [i]. *)
Definition splice1 {A} (l : list A) (i : nat) : list A := take i l ++ drop (S i) l.

(** [arr.slice(-n)]: the last [n] elements. *)
Definition slice_last {A} (l : list A) (n : nat) : list A := drop (length l - n) l.

(** ** history.svelte.ts: the history of played assets *)

Module History.

(** [HistoryAudioInfo.audioInfo]: [None] is [null]. *)
Definition history := option (list AudioInfo).

Definition same_path (a b : AudioInfo) : bool := String.eqb (path a) (path b).

(** [addToHistory(audioInfo)]: the new value of [HistoryAudioInfo.audioInfo]. *)
Definition addToHistory (h : history) (a : AudioInfo) : history :=
  let l := match h with Some l => l | None => [] end in
  let l := match findIndex (fun info => same_path info a) l with
           | Some i => splice1 l i
           | None => l
           end in
  let l := l ++ [a] in
  Some (if Nat.ltb 50 (length l) then slice_last l 50 else l).

(** [cleanupHistory(currentAudioInfoList)]. *)
Definition cleanupHistory (h : history) (current : option (list AudioInfo)) : history :=
  match h with
  | None => None
  | Some l =>
      match current with
      | None => None
      | Some cur =>
          Some (List.filter (fun info => existsb (fun c => same_path c info) cur) l)
      end
  end.

(** [clearHistory()]. *)
Definition clearHistory (h : history) : history := None.

(** The in-memory [HistoryAudioInfo.audioInfo], the value the store holds
    under the key [history] ([None] when absent or [null]), the number of
    scheduled [saveHistoryToStore] callbacks that have not run yet, and the
    values read by [store.get] in [loadHistoryFromStore] calls whose
    assignment is still pending. *)
Record hstate := {
  hist : history;
  saved : history;
  pending_saves : nat;
  pending_loads : list history
}.

(** The mutating operations, and the asynchronous steps they leave behind:
    each mutation ends with [historyStore.then(store => saveHistoryToStore(store))],
    whose callback runs later ([RunSave]) and writes the history current at
    that time; [loadHistoryFromStore] reads the store ([LoadStart]) and assigns
    the value after its [await] ([LoadFinish i] completes the [i]-th pending
    call). *)
Inductive hop :=
| Add (a : AudioInfo)
| Cleanup (current : option (list AudioInfo))
| Clear
| RunSave
| LoadStart
| LoadFinish (i : nat).

Definition scheduled (s : hstate) (h : history) : hstate :=
  {| hist := h; saved := saved s; pending_saves := S (pending_saves s);
     pending_loads := pending_loads s |}.

(** [cleanupHistory] on a [null] history returns before scheduling a save;
    a step that is not enabled ([RunSave] with no callback scheduled,
    [LoadFinish] of no pending call) changes nothing. *)
Definition hstep (s : hstate) (o : hop) : hstate :=
  match o with
  | Add a => scheduled s (addToHistory (hist s) a)
  | Cleanup cur =>
      match hist s with
      | None => s
      | Some _ => scheduled s (cleanupHistory (hist s) cur)
      end
  | Clear => scheduled s (clearHistory (hist s))
  | RunSave =>
      match pending_saves s with
      | O => s
      | S n => {| hist := hist s; saved := hist s; pending_saves := n;
                  pending_loads := pending_loads s |}
      end
  | LoadStart =>
      {| hist := hist s; saved := saved s; pending_saves := pending_saves s;
         pending_loads := pending_loads s ++ [saved s] |}
  | LoadFinish i =>
      match pending_loads s !! i with
      | None => s
      | Some v => {| hist := v; saved := saved s; pending_saves := pending_saves s;
                     pending_loads := delete i (pending_loads s) |}
      end
  end.

Definition hrun (s : hstate) (os : list hop) : hstate := fold_left hstep os s.

(** A fresh install: nothing in memory, no [history] key in the store. *)
Definition hinit : hstate :=
  {| hist := None; saved := None; pending_saves := 0; pending_loads := [] |}.

End History.

(** ** player.svelte: [getCurrentChapter] *)

Definition Qltb (a b : Q) : bool := negb (Qle_bool b a).

(** JS falsiness of a [number | null]: [null] or [0]. *)
Definition num_falsy (o : option Q) : bool :=
  match o with None => true | Some q => Qeq_bool q 0 end.

(** [getCurrentChapter()] over [MediaPlayerData.audioInfo], [.progress] and
    [.duration]; the string [`${index}__${timestamp}__${title}`] is
    represented by the pair of the index and the chapter. *)
Definition getCurrentChapter (audioInfo : option AudioInfo)
    (progress duration : option Q) : option (nat * AudioChapterInfo) :=
  match audioInfo ≫= chapters with
  | None | Some [] => None
  | Some ((c0 :: _) as cs) =>
      if num_falsy duration then None else
      let d := default 0%Q duration in
      match progress with
      | Some p =>
          if Qeq_bool p 0 then Some (0%nat, c0) else
          let currentTime := (p / 100 * d)%Q in
          match findIndex (fun ch => Qltb currentTime (timestamp ch)) cs with
          | None => let lastIndex := (length cs - 1)%nat in
                    (fun ch => (lastIndex, ch)) <$> cs !! lastIndex
          | Some 0%nat => None
          | Some (S chapterIndex) => (fun ch => (chapterIndex, ch)) <$> cs !! chapterIndex
          end
      | None => Some (0%nat, c0)
      end
  end.

(** ** library +page.svelte: [handleAudioTrackSelect] *)

(** The requests issued when a track is selected, in call order.
    [device] is [StatusBarData.niDaqSelectedDevice?.name]; [flipLRStereo]
    is [None] while [MediaPlayerData.flipLRStereo] is [undefined]. *)
Definition handleAudioTrackSelect (data : option AudioInfo) (device : option string)
    (isPlaying : bool) (volume : Z) (flipLRStereo : option bool) : list request :=
  match data with
  | None => []
  | Some d =>
      match device with
      | None => []
      | Some dev =>
          if String.eqb dev "" then [] else
          (if isPlaying then [("pause", None)] else [])
          ++ [("load_audio", Some (json_stringify_object
                 [("device_name", Some (JStr dev));
                  ("file_path", Some (JStr (path d)));
                  ("ao_channels", Some (JArr [JStr "/ao0"; JStr "/ao1"; JStr "/ao2"; JStr "/ao3"]));
                  ("ai_channels", Some (JArr []));
                  ("do_channels", Some (JArr [JStr "/port0/line0"; JStr "/port0/line1"]));
                  ("volume", Some (JNum (inject_Z volume)));
                  ("samples_per_frame", Some (JNum (inject_Z 8192)));
                  ("flip_lr_stereo", JBool <$> flipLRStereo)]));
              ("play", None)]
      end
  end.

(** ** player.svelte: volume and mute *)

Module Volume.

Record vstate := { volume : Z; muted : bool }.

(** [MediaPlayerData]: [volume: 80], [muted: false]. *)
Definition vinit : vstate := {| volume := 80; muted := false |}.

Definition volume_request (v : Z) : request :=
  ("volume", Some (JObj [("volume", JNum (inject_Z v))])).

(** The value the volume [Slider] binds: [min={0} max={100} step={1}]. *)
Definition slider_value (raw : Z) : Z := Z.max 0 (Z.min 100 raw).

(** [toggleMute()]: flip [muted], then send [muted ? 0 : volume]. *)
Definition toggleMute (s : vstate) : vstate * list request :=
  let m := negb (muted s) in
  ({| volume := volume s; muted := m |},
   [volume_request (if m then 0 else volume s)]).

(** [syncPlayerVolume()]: send the stored volume. *)
Definition syncPlayerVolume (s : vstate) : list request := [volume_request (volume s)].

Inductive vev :=
| SliderChange (raw : Z)        (** [bind:value] then [onValueChange] *)
| ToggleMute                    (** click on the volume button *)
| LoadAudioReply (v : Z).       (** [loadAudioHandler]: [volume = playerInfo.volume] *)

Definition vstep (s : vstate) (e : vev) : vstate * list request :=
  match e with
  | SliderChange raw =>
      let s' := {| volume := slider_value raw; muted := muted s |} in
      (s', syncPlayerVolume s')
  | ToggleMute => toggleMute s
  | LoadAudioReply v => ({| volume := v; muted := muted s |}, [])
  end.

Fixpoint vrun (s : vstate) (es : list vev) : vstate * list request :=
  match es with
  | [] => (s, [])
  | e :: es' =>
      let '(s1, r1) := vstep s e in
      let '(s2, r2) := vrun s1 es' in
      (s2, r1 ++ r2)
  end.

(** Modelled from the spec: the playback server (not part of the sources)
    replies to [load_audio] with a [player_info.volume] that obeys the wire
    contract the spec fixes, an integer in 0..100. *)
Definition server_reply_ok (e : vev) : bool :=
  match e with
  | LoadAudioReply v => (0 <=? v) && (v <=? 100)
  | _ => true
  end.

End Volume.

(** ** play.svelte.ts: throttled [progress_update] handling *)

Module Progress.

Record snapshot := {
  snap_duration : Q;
  snap_playing : bool;
  snap_audio_completed : bool;
  progress_percent : Q
}.

Record pstate := {
  lastUpdated : Z;                     (** [updateStatus.lastUpdated], ms *)
  p_duration : option Q;
  p_isPlaying : bool;
  p_playbackCompleted : bool;
  p_progress : option Q;
  pauseAutomaticWsProgressUpdate : bool
}.

(** [updateStatus.interval]. *)
Definition interval : Z := 330.

(** The [requestAnimationFrame] callback [updateProgress] of one
    [progress_update] message, run when [Date.now()] is [now];
    [playerInfo = data.data] is [None] when falsy. *)
Definition updateProgress (now : Z) (playerInfo : option snapshot) (s : pstate) : pstate :=
  match playerInfo with
  | None => s
  | Some pi =>
      if now - lastUpdated s <? interval then s else
      {| lastUpdated := now;
         p_duration := Some (snap_duration pi);
         p_isPlaying := snap_playing pi;
         p_playbackCompleted := snap_audio_completed pi;
         p_progress := if pauseAutomaticWsProgressUpdate s then p_progress s
                       else Some (progress_percent pi);
         pauseAutomaticWsProgressUpdate := pauseAutomaticWsProgressUpdate s |}
  end.

(** A sequence of [progress_update] callbacks: callback time and payload. *)
Definition prun (s : pstate) (ms : list (Z * option snapshot)) : pstate :=
  fold_left (fun s '(now, pi) => updateProgress now pi s) ms s.

(** Whether the callback at [now] applies its snapshot. *)
Definition applies (s : pstate) (now : Z) (pi : option snapshot) : bool :=
  match pi with
  | None => false
  | Some _ => negb (now - lastUpdated s <? interval)
  end.

(** The callback times at which a snapshot was applied. *)
Fixpoint applied_times (s : pstate) (ms : list (Z * option snapshot)) : list Z :=
  match ms with
  | [] => []
  | (now, pi) :: ms' =>
      (if applies s now pi then [now] else [])
      ++ applied_times (updateProgress now pi s) ms'
  end.

(** [lastUpdated: 0] and an idle player at start-up. *)
Definition pinit : pstate :=
  {| lastUpdated := 0; p_duration := None; p_isPlaying := false;
     p_playbackCompleted := false; p_progress := None;
     pauseAutomaticWsProgressUpdate := false |}.

End Progress.

(** ** library +page.svelte: [refreshAudioMetadata] and [library.bin] *)

Inductive effect :=
| SaveAudioMetadata (l : list AudioInfo)   (** [invoke("save_audio_metadata")] *)
| SetLastLibbinHash (h : string).          (** [setLastLibbinHash(store, h)] *)

(** JS falsiness of a [string | undefined]. *)
Definition str_falsy (o : option string) : bool :=
  match o with None => true | Some s => String.eqb s "" end.

Section Refresh.

(** The backend commands and the locale-dependent sort the function calls. *)
Variable getMediaInfo : string -> option AudioInfo.
Variable sort_by_name : list AudioInfo -> list AudioInfo.
Variable calculate_audio_metadata_hash : list AudioInfo -> string.

(** [refreshAudioMetadata(rescan, writefile)]: the writes to [library.bin]
    and to [lastLibbinHash]. [files] is [await audioFilesList], [cached]
    the result of [load_audio_metadata] ([None] if undefined or thrown),
    [lastLibbinHash] the value of [getLastLibbinHash]. The metadata of the
    files is gathered in batches of 20 with [Promise.all], which keeps the
    order of [files]. *)
Definition refreshAudioMetadata (rescan writefile : bool)
    (files : option (list string)) (cached : option (list AudioInfo))
    (lastLibbinHash : option string) : list effect :=
  match files with
  | None => []
  | Some fs =>
      match (if rescan then None else cached) with
      | Some _ => []
      | None =>
          let finalFilteredContent := sort_by_name (omap getMediaInfo fs) in
          if negb writefile then [] else
          if str_falsy lastLibbinHash then
            [SaveAudioMetadata finalFilteredContent;
             SetLastLibbinHash (calculate_audio_metadata_hash finalFilteredContent)]
          else
            let metadataHash := calculate_audio_metadata_hash finalFilteredContent in
            if bool_decide (Some metadataHash = lastLibbinHash) then []
            else [SaveAudioMetadata finalFilteredContent; SetLastLibbinHash metadataHash]
      end
  end.

End Refresh.

(** ** player.svelte: time formatting and the progress slider *)

Module Timing.

(** [Math.trunc]. *)
Definition Qtrunc (x : Q) : Z := if Qle_bool 0 x then Qfloor x else - Qfloor (- x)%Q.

(** JS [a % b] on numbers: the remainder of the truncated division. *)
Definition jsmod (a b : Q) : Q := (a - b * inject_Z (Qtrunc (a / b)))%Q.

(** The numbers [formatDuration] computes from [duration]:
    [hours], [minutes], [seconds] and [milliseconds]. *)
Definition duration_parts (d : Q) : Z * Z * Z * Z :=
  (Qfloor (d / 3600)%Q, Qfloor (jsmod d 3600 / 60)%Q, Qfloor (jsmod d 60),
   Qfloor (jsmod d 1 * 1000)%Q).

(** [formatDuration(duration)]: [H:MM:SS.t], or [M:SS.t] under an hour. *)
Definition formatDuration (duration : option Q) : string :=
  match duration with
  | None => "0:00.0"
  | Some d =>
      let '(hours, minutes, seconds, milliseconds) := duration_parts d in
      (if 0 <? hours then pretty hours +:+ ":" else "") +:+
      (if (0 <? hours) && (minutes <? 10) then "0" else "") +:+
      pretty minutes +:+ ":" +:+
      (if seconds <? 10 then "0" +:+ pretty seconds else pretty seconds) +:+
      "." +:+ pretty (milliseconds `div` 100)
  end.

(** [formatProgress(progress, duration)]. *)
Definition formatProgress (progress duration : option Q) : string :=
  match progress, duration with
  | Some p, Some d =>
      if Qeq_bool d 0 then "0:00.0" else formatDuration (Some (p / 100 * d)%Q)
  | _, _ => "0:00.0"
  end.

(** [Math.round]: to the nearest integer, halves upwards. *)
Definition Qround (x : Q) : Z := Qfloor (x + (1 # 2))%Q.

(** [calcSliderValue(progress, duration)]: the progress slider value, ms. *)
Definition calcSliderValue (progress duration : option Q) : Z :=
  match progress, duration with
  | Some p, Some d => if Qeq_bool d 0 then 0 else Qround (p / 100 * d * 1000)%Q
  | _, _ => 0
  end.

(** The progress slider's [max]: [Math.ceil((MediaPlayerData.duration || 0) * 1000)]. *)
Definition slider_max (duration : option Q) : Z :=
  Qceiling (default 0%Q duration * 1000)%Q.

(** The requests of the progress slider's [onValueCommit(value)]. *)
Definition onValueCommit (duration : option Q) (isPlaying : bool) (value : Q) : list request :=
  match duration with
  | None => []
  | Some d =>
      if isPlaying then [] else
      let seek_to_progress := (value / inject_Z (slider_max duration) * 100)%Q in
      let seek_to_seconds := (seek_to_progress / 100 * d)%Q in
      [("seek", Some (JObj [("time", JNum seek_to_seconds)]))]
  end.

(** [cycleMediaDataLoopModes()] on [MediaPlayerData.loop]. *)
Definition loopModes : list string := ["none"; "all"; "one"].

(** [Array.prototype.indexOf] on strings. *)
Definition indexOf (l : list string) (x : string) : Z :=
  match findIndex (String.eqb x) l with Some i => Z.of_nat i | None => -1 end.

Definition cycleMediaDataLoopModes (currentLoopMode : string) : string :=
  default "" (loopModes !! Z.to_nat ((indexOf loopModes currentLoopMode + 1)
                                      mod Z.of_nat (length loopModes))).

End Timing.

(** ** tasks/*.svelte.ts: the reply handlers *)

Module Handlers.

Record mp_state := {
  mp_duration : option Q;
  mp_isPlaying : bool;
  mp_playbackCompleted : bool;
  mp_progress : option Q;
  mp_volume : Q;
  mp_flipLRStereo : option bool
}.

Record player_info := {
  pi_duration : Q;
  pi_playing : bool;
  pi_sample_generated : Q;
  pi_total_audio_samples : Q;
  pi_volume : Q;
  pi_flip_lr_stereo : option bool
}.

(** [loadAudioHandler]: [None] is a reply with [status: "error"]. The
    quotient [sample_generated / total_audio_samples] follows Q's convention
    [x / 0 = 0] where JS would give [NaN] or [Infinity]. *)
Definition loadAudioHandler (reply : option player_info) (s : mp_state) : mp_state :=
  match reply with
  | None => s
  | Some pi =>
      {| mp_duration := Some (pi_duration pi);
         mp_isPlaying := pi_playing pi;
         mp_playbackCompleted := mp_playbackCompleted s;
         mp_progress := Some (pi_sample_generated pi / pi_total_audio_samples pi * 100)%Q;
         mp_volume := pi_volume pi;
         mp_flipLRStereo := Some (default false (pi_flip_lr_stereo pi)) |}
  end.

(** The messages [playAudioHandler] distinguishes. *)
Inductive play_msg :=
| PlayError                                   (** [status: "error"] *)
| ProgressUpdate                              (** handled by a scheduled frame callback *)
| PlaybackCompleted (audio_completed : bool) (duration : Q)
| OtherPlayMsg.

(** [playAudioHandler] as first defined in play.svelte.ts, next to the
    throttled [updateProgress]; the later definition in that file does not
    set [progress] and [duration] on [playback_completed]. *)
Definition playAudioHandler (m : play_msg) (s : mp_state) : mp_state :=
  match m with
  | PlayError =>
      {| mp_duration := mp_duration s; mp_isPlaying := false;
         mp_playbackCompleted := mp_playbackCompleted s; mp_progress := mp_progress s;
         mp_volume := mp_volume s; mp_flipLRStereo := mp_flipLRStereo s |}
  | PlaybackCompleted ac d =>
      {| mp_duration := Some d; mp_isPlaying := false;
         mp_playbackCompleted := ac; mp_progress := Some 100%Q;
         mp_volume := mp_volume s; mp_flipLRStereo := mp_flipLRStereo s |}
  | ProgressUpdate | OtherPlayMsg => s
  end.

(** The flags [togglePlayPause] reads. *)
Definition to_flags (s : mp_state) : player_flags :=
  {| isPlaying := mp_isPlaying s; playbackCompleted := mp_playbackCompleted s |}.

End Handlers.

(** ** libraryInfo.svelte.ts: library listing and hash keys *)

Module LibraryStore.

Record LibraryDirInfo := { dir : string; fileCount : Q }.
Record Library := { audioFiles : list string; libraryStats : list LibraryDirInfo }.

Definition libraryKey : string := "library".
Definition lastLibbinHashKey : string := "lastLibbinHash".

(** The JSON the store keeps for a [Library]. *)
Definition encode_dir_info (i : LibraryDirInfo) : jval :=
  JObj [("dir", JStr (dir i)); ("fileCount", JNum (fileCount i))].

Definition encode_library (l : Library) : jval :=
  JObj [("audioFiles", JArr (JStr <$> audioFiles l));
        ("libraryStats", JArr (encode_dir_info <$> libraryStats l))].

(** JS truthiness of a JSON value. *)
Definition jtruthy (v : jval) : bool :=
  match v with
  | JNull => false
  | JBool b => b
  | JNum q => negb (Qeq_bool q 0)
  | JStr s => negb (String.eqb s "")
  | JArr _ | JObj _ => true
  end.

(** [updateLibraryStore(store, data)]. *)
Definition updateLibraryStore (st : store) (data : Library) : store :=
  <[libraryKey := encode_library data]> st.

(** [info.dir]: [None] when the access throws (on [null]), [Some None] when
    it is [undefined]. *)
Definition dir_of (x : jval) : option (option jval) :=
  match x with
  | JObj f => Some (obj_get f "dir")
  | JNull => None
  | _ => Some None
  end.

(** [listLibraryDirs(store)]: [None] when [library.libraryStats.map] throws. *)
Definition listLibraryDirs (st : store) : option (list (option jval)) :=
  match st !! libraryKey with
  | Some v =>
      if jtruthy v then
        match v with
        | JObj fs =>
            match obj_get fs "libraryStats" with
            | Some (JArr xs) => mapM dir_of xs
            | _ => None
            end
        | _ => None
        end
      else Some []
  | None => Some []
  end.

(** [setLastLibbinHash(store, hash)] and [getLastLibbinHash(store)]. *)
Definition setLastLibbinHash (st : store) (h : string) : store :=
  <[lastLibbinHashKey := JStr h]> st.

Definition getLastLibbinHash (st : store) : option jval := st !! lastLibbinHashKey.

(** [rescanLibrary(store)], with [scan] the [flex_search_audio_files]
    command ([None] when its result is falsy); [None] when the function
    rejects. *)
Definition rescanLibrary
    (scan : list (option jval) -> Q -> option (list string * list LibraryDirInfo))
    (st : store) : option (store * option Library) :=
  dirs ← listLibraryDirs st;
  let '(st1, recursiveLevel) := getScanRecursiveLevel st in
  match scan dirs recursiveLevel with
  | Some (paths, stats) =>
      let library := {| audioFiles := paths; libraryStats := stats |} in
      Some (updateLibraryStore st1 library, Some library)
  | None => Some (st1, None)
  end.

(** The stored [lastLibbinHash] as [refreshAudioMetadata] compares it: a
    non-string value never equals a computed hash and so behaves as absent. *)
Definition stored_hash (st : store) : option string :=
  match getLastLibbinHash st with Some (JStr s) => Some s | _ => None end.

(** The store after the [setLastLibbinHash] calls of a refresh. *)
Definition apply_effects (st : store) (effs : list effect) : store :=
  fold_left (fun st e => match e with
                         | SetLastLibbinHash h => setLastLibbinHash st h
                         | SaveAudioMetadata _ => st
                         end) effs st.

End LibraryStore.

(** ** The client's messages to the control socket *)

Module ClientSends.

(** What [ws.send] is given: a [JSON.stringify] result or a plain string. *)
Inductive ws_payload :=
| WsJson (j : jval)
| WsText (t : string).

(** [seekToChapter(timestamp)] (player.svelte). *)
Definition seekToChapter (duration : option Q) (timestamp : Q) : list request :=
  match duration with
  | None => []
  | Some _ => [("seek", Some (JObj [("time", JNum timestamp)]))]
  end.

(** The progress slider's [onValueChange]: the [seek] it sends once a manual
    seek has been committed; [time] is [manualSeek.time], which may be
    [undefined]. *)
Definition onValueChange_sends (duration : option Q) (committed : bool) (time : option Q)
    : list request :=
  match duration with
  | None => []
  | Some _ =>
      if committed then [("seek", Some (json_stringify_object [("time", JNum <$> time)]))]
      else []
  end.

(** [handleAudioTrackSelect] of the page in unnamed/part_003. *)
Definition handleAudioTrackSelect_part003 (data : option AudioInfo) (device : option string)
    (volume : Z) : list request :=
  match data with
  | None => []
  | Some d =>
      match device with
      | None => []
      | Some dev =>
          if String.eqb dev "" then [] else
          [("load_audio", Some (json_stringify_object
              [("device_name", Some (JStr dev));
               ("file_path", Some (JStr (path d)));
               ("ao_channels", Some (JArr [JStr "/ao0"; JStr "/ao1"]));
               ("ai_channels", Some (JArr [JStr "/ai0"; JStr "/ai1"]));
               ("do_channels", Some (JArr [JStr "/port0/line0"; JStr "/port0/line1"]));
               ("volume", Some (JNum (inject_Z volume)));
               ("samples_per_frame", Some (JNum (inject_Z 4096)))]));
           ("play", None)]
      end
  end.

(** Every place of the client that sends on a WebSocket: the media player's
    controls and the track selection, all through [wsSendOnce]; the status
    bar's [getPywsPid], which sends a healthcheck on its own socket; and the
    main page's [check_ws_server]. The player's event listener
    ([initWsEventListener]) opens a socket but sends nothing. *)
Inductive client_event :=
| ClickPlayPause (s : player_flags)
| ClickChapter (duration : option Q) (timestamp : Q)
| VolumeControl (s : Volume.vstate) (e : Volume.vev)
| ProgressValueChange (duration : option Q) (committed : bool) (time : option Q)
| ProgressValueCommit (duration : option Q) (isPlaying : bool) (value : Q)
| SelectTrack (data : option AudioInfo) (device : option string) (isPlaying : bool)
    (volume : Z) (flipLRStereo : option bool)
| SelectTrackPart003 (data : option AudioInfo) (device : option string) (volume : Z)
| StatusBarHealthcheck
| PageWsCheck.

Definition via_wsSendOnce (rs : list request) : list (string * ws_payload) :=
  (fun r => let w := send r in (ws_url w, WsJson (ws_msg w))) <$> rs.

(** The endpoint and the payload of each message an event sends, in order. *)
Definition client_sends (e : client_event) : list (string * ws_payload) :=
  match e with
  | ClickPlayPause s => via_wsSendOnce (togglePlayPause s)
  | ClickChapter d t => via_wsSendOnce (seekToChapter d t)
  | VolumeControl s ev => via_wsSendOnce (Volume.vstep s ev).2
  | ProgressValueChange d c t => via_wsSendOnce (onValueChange_sends d c t)
  | ProgressValueCommit d p v => via_wsSendOnce (Timing.onValueCommit d p v)
  | SelectTrack data dev p v f => via_wsSendOnce (handleAudioTrackSelect data dev p v f)
  | SelectTrackPart003 data dev v => via_wsSendOnce (handleAudioTrackSelect_part003 data dev v)
  | StatusBarHealthcheck =>
      [("ws://localhost:21749", WsJson (json_stringify_object [("task", Some (JStr "healthcheck"))]))]
  | PageWsCheck => [("ws://localhost:21749", WsText "TEST OK")]
  end.

(** The JSON message [{task}] or [{task, data}]. *)
Definition task_message (task : string) (data : option jval) : ws_payload :=
  WsJson (JObj (("task", JStr task) :: match data with Some d => [("data", d)] | None => [] end)).

(** The task names the client sends. *)
Definition client_tasks : list string :=
  ["pause"; "play"; "seek"; "volume"; "load_audio"; "healthcheck"].

Definition known_tasks (rs : list request) : bool :=
  forallb (fun r => bool_decide (r.1 ∈ client_tasks)) rs.

End ClientSends.

(** ** Concrete inputs used by the examples below *)

Definition chapter_at (t : Q) (s : string) : AudioChapterInfo :=
  {| timestamp := t; title := s |}.

(** An asset of 100 s whose first chapter starts at 40 s. *)
Definition asset_late_chapter : AudioInfo :=
  {| name := "Dreamy Night"; path := "/music/dreamy.flac"; duration := 100;
     chapters := Some [chapter_at 40 "Verse 1"; chapter_at 60 "Verse 2"] |}.

Definition Progress_snap (p : Q) : Progress.snapshot :=
  {| Progress.snap_duration := 10; Progress.snap_playing := true;
     Progress.snap_audio_completed := false; Progress.progress_percent := p |}.

(** The [load_audio] request issued when that asset is selected on [Dev1]
    while another track plays. *)
Definition selected_load_request : request :=
  nth 1 (handleAudioTrackSelect (Some asset_late_chapter) (Some "Dev1") true 80 None)
    ("", None).

(** * Properties *)

(** ** Wire format of the requests *)

Module ClientSendsProofs.
Import ClientSends.

Lemma via_wsSendOnce_shape (rs : list request) :
  known_tasks rs = true ->
  forall m, m ∈ via_wsSendOnce rs ->
  m.1 = "ws://localhost:21749" /\
  exists task data, task ∈ client_tasks /\ m.2 = task_message task data.
Proof.
  unfold known_tasks. rewrite forallb_forall. intros Hk m Hm.
  apply list_elem_of_fmap in Hm as [[t d] [-> Hr]].
  assert (Ht : t ∈ client_tasks).
  { apply (bool_decide_eq_true_1 _), (Hk (t, d)). apply list_elem_of_In. exact Hr. }
  split; [reflexivity|]. exists t, d. split; [exact Ht|].
  destruct d; reflexivity.
Qed.

Lemma client_events_known_tasks (e : client_event) :
  e <> StatusBarHealthcheck -> e <> PageWsCheck ->
  exists rs, client_sends e = via_wsSendOnce rs /\ known_tasks rs = true.
Proof.
  intros H1 H2. destruct e as [s|d t|s ev|d c t|d p v|data dev p v f|data dev v| |];
    try contradiction; eexists; split; try reflexivity.
  - destruct s as [[|] [|]]; reflexivity.
  - destruct d; reflexivity.
  - destruct ev; reflexivity.
  - destruct d, c; reflexivity.
  - destruct d, p; reflexivity.
  - destruct data, dev; try reflexivity. simpl.
    destruct (String.eqb _ ""), p; reflexivity.
  - destruct data, dev; try reflexivity. simpl.
    destruct (String.eqb _ ""); reflexivity.
Qed.

End ClientSendsProofs.

(** C7 (the claim as stated fails): the main page's [check_ws_server] sends
    the plain text [TEST OK] to [ws://localhost:21749], which is no JSON
    message of the shape [{task, data?}]. *)
Lemma page_ws_check_not_task_message :
  ClientSends.client_sends ClientSends.PageWsCheck =
    [("ws://localhost:21749", ClientSends.WsText "TEST OK")] /\
  forall task data, ClientSends.WsText "TEST OK" <> ClientSends.task_message task data.
Proof. split; [reflexivity|]. intros task data. discriminate. Qed.

(** C7 (amended): every message the client sends on a WebSocket, from any of
    its send sites, goes to [ws://localhost:21749]; every one except the
    main page's connection check is the JSON object [{task}] or
    [{task, data}] ([data] omitted when [undefined]), with a task among
    [pause], [play], [seek], [volume], [load_audio] and [healthcheck]. *)
Theorem client_requests_endpoint_and_shape :
  forall (e : ClientSends.client_event) (m : string * ClientSends.ws_payload),
  m ∈ ClientSends.client_sends e ->
  m.1 = "ws://localhost:21749" /\
  (e <> ClientSends.PageWsCheck ->
   exists task data, task ∈ ClientSends.client_tasks /\ m.2 = ClientSends.task_message task data).
Proof.
  intros e m Hm.
  assert (Hc : e = ClientSends.StatusBarHealthcheck \/ e = ClientSends.PageWsCheck \/
               (e <> ClientSends.StatusBarHealthcheck /\ e <> ClientSends.PageWsCheck))
    by (destruct e; auto; right; right; split; discriminate).
  destruct Hc as [->|[->|[H1 H2]]].
  { simpl in Hm. apply list_elem_of_singleton in Hm as ->. split; [reflexivity|].
    intros _. exists "healthcheck", None. split; [|reflexivity].
    unfold ClientSends.client_tasks. set_solver. }
  { simpl in Hm. apply list_elem_of_singleton in Hm as ->. split; [reflexivity|].
    intros H. contradiction. }
  destruct (ClientSendsProofs.client_events_known_tasks e H1 H2) as [rs [E Hk]].
  rewrite E in Hm.
  destruct (ClientSendsProofs.via_wsSendOnce_shape rs Hk m Hm) as [Hu Hs].
  split; [exact Hu|]. intros _. exact Hs.
Qed.

(** Pressing play after the track completed: [seek] to 0, then [play]. *)
Lemma client_requests_endpoint_and_shape_witness :
  let e := ClientSends.ClickPlayPause {| isPlaying := false; playbackCompleted := true |} in
  let m := ("ws://localhost:21749",
            ClientSends.WsJson (JObj [("task", JStr "seek"); ("data", JObj [("time", JNum 0%Q)])])) in
  m.1 = "ws://localhost:21749" /\
  (e <> ClientSends.PageWsCheck ->
   exists task data, task ∈ ClientSends.client_tasks /\ m.2 = ClientSends.task_message task data).
Proof.
  intros e m. apply (client_requests_endpoint_and_shape e m).
  vm_compute. apply list_elem_of_here.
Defined.

(** ** Transport *)

(** C4: when [togglePlayPause] takes the play branch (not playing), it
    issues [seek {time: 0}] then [play] if playback completed, and [play]
    alone, with no seek, otherwise. *)
Theorem togglePlayPause_play_branch : forall s : player_flags,
  isPlaying s = false ->
  (playbackCompleted s = true ->
     togglePlayPause s = [("seek", Some (JObj [("time", JNum 0%Q)])); ("play", None)]) /\
  (playbackCompleted s = false -> togglePlayPause s = [("play", None)]).
Proof.
  intros [[|] [|]] Hp; simpl in *; try discriminate; split; intros H;
    try discriminate; reflexivity.
Qed.

Lemma togglePlayPause_play_branch_witness :
  togglePlayPause {| isPlaying := false; playbackCompleted := true |}
    = [("seek", Some (JObj [("time", JNum 0%Q)])); ("play", None)].
Proof.
  apply (togglePlayPause_play_branch {| isPlaying := false; playbackCompleted := true |});
    reflexivity.
Defined.

(** ** Library store *)

(** C8: without a number under [scanRecursiveLevel], [getScanRecursiveLevel]
    stores 4 there (leaving every other key alone) and returns 4; with a
    number stored, it returns it and leaves the store unchanged. *)
Theorem getScanRecursiveLevel_default : forall st : store,
  (forall q, st !! scanRecursiveLevelKey = Some (JNum q) ->
     getScanRecursiveLevel st = (st, q)) /\
  ((forall q, st !! scanRecursiveLevelKey <> Some (JNum q)) ->
     (getScanRecursiveLevel st).2 = 4%Q /\
     (getScanRecursiveLevel st).1 !! scanRecursiveLevelKey = Some (JNum 4%Q) /\
     (forall k, k <> scanRecursiveLevelKey ->
        (getScanRecursiveLevel st).1 !! k = st !! k)).
Proof.
  intros st. unfold getScanRecursiveLevel, setScanRecursiveLevel. split.
  - intros q ->. reflexivity.
  - intros Hn.
    assert (Hm : match st !! scanRecursiveLevelKey with
                 | Some (JNum q) => (st, q)
                 | _ => (<[scanRecursiveLevelKey:=JNum 4%Q]> st, 4%Q)
                 end = (<[scanRecursiveLevelKey:=JNum 4%Q]> st, 4%Q)).
    { destruct (st !! scanRecursiveLevelKey) as [[]|] eqn:E; try reflexivity.
      exfalso. eapply Hn. reflexivity. }
    rewrite Hm. simpl. split; [reflexivity|]. split.
    + apply lookup_insert_eq.
    + intros k Hk. apply lookup_insert_ne. congruence.
Qed.

Lemma getScanRecursiveLevel_default_witness :
  getScanRecursiveLevel (<[scanRecursiveLevelKey := JNum 2%Q]> ∅) =
    (<[scanRecursiveLevelKey := JNum 2%Q]> ∅, 2%Q) /\
  (getScanRecursiveLevel (<["lastLibbinHash" := JStr "ab"]> ∅)).2 = 4%Q.
Proof.
  split.
  - apply (getScanRecursiveLevel_default (<[scanRecursiveLevelKey := JNum 2%Q]> ∅)).
    reflexivity.
  - apply (getScanRecursiveLevel_default (<["lastLibbinHash" := JStr "ab"]> ∅)).
    intros q. vm_compute. discriminate.
Defined.

(** ** Track selection *)

(** C6: every [load_audio] request issued by [handleAudioTrackSelect]
    carries [file_path] (the asset's path), a non-empty [device_name] and a
    non-empty [ao_channels] list, and its [do_channels] are exactly the two
    device-relative lines [port0/line0] and [port0/line1]. *)
Theorem handleAudioTrackSelect_load_audio_fields :
  forall data device isPlaying volume flip (r : request),
  In r (handleAudioTrackSelect data device isPlaying volume flip) ->
  r.1 = "load_audio" ->
  exists d dev fs,
    data = Some d /\ device = Some dev /\ dev <> "" /\
    r.2 = Some (JObj fs) /\
    obj_get fs "file_path" = Some (JStr (path d)) /\
    obj_get fs "device_name" = Some (JStr dev) /\
    (exists aos, obj_get fs "ao_channels" = Some (JArr aos) /\ aos <> []) /\
    obj_get fs "do_channels" = Some (JArr [JStr "/port0/line0"; JStr "/port0/line1"]).
Proof.
  intros [d|] [dev|] isPlaying volume flip r Hin Ht; simpl in Hin; try contradiction.
  destruct (String.eqb dev "") eqn:Edev; [contradiction|].
  apply String.eqb_neq in Edev.
  assert (Hr : r = ("load_audio", Some (json_stringify_object
                 [("device_name", Some (JStr dev));
                  ("file_path", Some (JStr (path d)));
                  ("ao_channels", Some (JArr [JStr "/ao0"; JStr "/ao1"; JStr "/ao2"; JStr "/ao3"]));
                  ("ai_channels", Some (JArr []));
                  ("do_channels", Some (JArr [JStr "/port0/line0"; JStr "/port0/line1"]));
                  ("volume", Some (JNum (inject_Z volume)));
                  ("samples_per_frame", Some (JNum (inject_Z 8192)));
                  ("flip_lr_stereo", JBool <$> flip)]))).
  { destruct isPlaying; simpl in Hin;
      repeat (destruct Hin as [<-|Hin]; [simpl in Ht; try discriminate; reflexivity|]);
      contradiction. }
  subst r. eexists d, dev, _. split; [reflexivity|]. split; [reflexivity|].
  split; [exact Edev|]. split; [reflexivity|].
  repeat split; try reflexivity.
  eexists. split; [reflexivity|discriminate].
Qed.

Lemma handleAudioTrackSelect_load_audio_fields_witness :
  exists d dev fs,
    Some asset_late_chapter = Some d /\ Some "Dev1" = Some dev /\ dev <> "" /\
    selected_load_request.2 = Some (JObj fs) /\
    obj_get fs "file_path" = Some (JStr (path d)) /\
    obj_get fs "device_name" = Some (JStr dev) /\
    (exists aos, obj_get fs "ao_channels" = Some (JArr aos) /\ aos <> []) /\
    obj_get fs "do_channels" = Some (JArr [JStr "/port0/line0"; JStr "/port0/line1"]).
Proof.
  apply (handleAudioTrackSelect_load_audio_fields (Some asset_late_chapter) (Some "Dev1")
           true 80 None selected_load_request).
  - simpl. right. left. reflexivity.
  - reflexivity.
Defined.

(** ** Current chapter *)

(** C9: with a non-empty chapter list and a positive duration,
    [getCurrentChapter] returns the first chapter when the progress is
    [null] or 0, even if that chapter starts later; for a non-zero progress
    whose time lies strictly before the first chapter, it returns [null]. *)
Theorem getCurrentChapter_before_first : forall (ai : AudioInfo) c0 cs (d : Q),
  chapters ai = Some (c0 :: cs) -> (0 < d)%Q ->
  (forall p : option Q, num_falsy p = true ->
     getCurrentChapter (Some ai) p (Some d) = Some (0%nat, c0)) /\
  (forall p : Q, ~ (p == 0)%Q -> (p / 100 * d < timestamp c0)%Q ->
     getCurrentChapter (Some ai) (Some p) (Some d) = None).
Proof.
  intros ai c0 cs d Hch Hd.
  assert (Hdz : Qeq_bool d 0 = false).
  { apply not_true_iff_false. intros E. apply Qeq_bool_eq in E.
    rewrite E in Hd. discriminate. }
  unfold getCurrentChapter. simpl. rewrite Hch. simpl. rewrite Hdz. split.
  - intros [p|] Hp; simpl in Hp; [rewrite Hp|]; reflexivity.
  - intros p Hp Hlt.
    destruct (Qeq_bool p 0) eqn:Ep; [apply Qeq_bool_eq in Ep; contradiction|].
    simpl. unfold Qltb.
    destruct (Qle_bool (timestamp c0) (p / 100 * d)) eqn:Ele; [|reflexivity].
    apply Qle_bool_imp_le in Ele. exfalso. apply (Qlt_not_le _ _ Hlt Ele).
Qed.

Lemma getCurrentChapter_before_first_witness :
  getCurrentChapter (Some asset_late_chapter) None (Some 100%Q)
    = Some (0%nat, chapter_at 40 "Verse 1") /\
  getCurrentChapter (Some asset_late_chapter) (Some 10%Q) (Some 100%Q) = None.
Proof.
  destruct (getCurrentChapter_before_first asset_late_chapter (chapter_at 40 "Verse 1")
              [chapter_at 60 "Verse 2"] 100 eq_refl) as [H1 H2]; [reflexivity|].
  split.
  - apply H1. reflexivity.
  - apply H2; vm_compute; [discriminate|reflexivity].
Defined.

(** ** History *)

Module HistoryProofs.
Import History.

Lemma sublist_fmap_path (l1 l2 : list AudioInfo) :
  l1 `sublist_of` l2 -> path <$> l1 `sublist_of` path <$> l2.
Proof. induction 1; simpl; constructor; assumption. Qed.

Lemma NoDup_path_sublist (l1 l2 : list AudioInfo) :
  l1 `sublist_of` l2 -> NoDup (path <$> l2) -> NoDup (path <$> l1).
Proof. intros Hs Hn. eapply sublist_NoDup; [exact Hn|]. by apply sublist_fmap_path. Qed.

Lemma filter_sublist_bool {A} (f : A -> bool) (l : list A) :
  List.filter f l `sublist_of` l.
Proof.
  induction l as [|x l IH]; simpl; [constructor|].
  destruct (f x); constructor; exact IH.
Qed.

Lemma splice1_sublist {A} (l : list A) (i : nat) : splice1 l i `sublist_of` l.
Proof.
  revert i. induction l as [|x l IH]; intros [|i]; simpl.
  - constructor.
  - constructor.
  - unfold splice1. simpl. constructor. apply sublist_drop.
  - unfold splice1 in *. simpl. constructor. apply IH.
Qed.

(** Removing the first entry with the path of [a] from a list without
    duplicate paths leaves no entry with that path. *)
Lemma remove_same_path (l : list AudioInfo) (a : AudioInfo) :
  NoDup (path <$> l) ->
  let l' := match findIndex (fun info => same_path info a) l with
            | Some i => splice1 l i | None => l end in
  NoDup (path <$> l') /\ Forall (fun y => path y <> path a) l'.
Proof.
  induction l as [|x l IH]; intros Hn; simpl.
  - split; constructor.
  - simpl in Hn. apply NoDup_cons in Hn as [Hx Hn].
    destruct (same_path x a) eqn:Ex.
    + unfold same_path in Ex. apply String.eqb_eq in Ex.
      unfold splice1. simpl. rewrite drop_0. split; [exact Hn|].
      apply Forall_forall. intros y Hy Heq. apply Hx.
      rewrite Ex, <- Heq. apply list_elem_of_fmap_2. exact Hy.
    + unfold same_path in Ex. apply String.eqb_neq in Ex.
      destruct (IH Hn) as [IHn IHf].
      destruct (findIndex (fun info => same_path info a) l) as [i|] eqn:Ei; simpl.
      * unfold splice1 in *. simpl. split.
        -- simpl. constructor; [|exact IHn].
           intros Hin. apply Hx.
           eapply elem_of_sublist; [exact Hin|].
           apply sublist_fmap_path. apply splice1_sublist.
        -- constructor; [exact Ex|exact IHf].
      * split; [constructor; assumption|constructor; assumption].
Qed.

Definition hist_ok (h : history) : Prop :=
  match h with None => True | Some l => NoDup (path <$> l) end.

(** One call of [addToHistory] on a history without duplicate paths. *)
Lemma addToHistory_ok (h : history) (a : AudioInfo) :
  hist_ok h ->
  exists l, addToHistory h a = Some l /\
    NoDup (path <$> l) /\ last l = Some a /\ (length l <= 50)%nat.
Proof.
  intros Hh. unfold addToHistory.
  set (l0 := match h with Some l => l | None => [] end).
  assert (H0 : NoDup (path <$> l0)) by (destruct h; simpl in *; [exact Hh|constructor]).
  destruct (remove_same_path l0 a H0) as [Hn Hf].
  set (l1 := match findIndex (fun info => same_path info a) l0 with
             | Some i => splice1 l0 i | None => l0 end) in *.
  assert (Hn1 : NoDup (path <$> (l1 ++ [a]))).
  { rewrite fmap_app. apply NoDup_app. split; [exact Hn|]. split.
    - intros p Hp Hpa. simpl in Hpa. apply list_elem_of_singleton in Hpa. subst p.
      apply list_elem_of_fmap in Hp as [y [Hy Hyl]].
      rewrite Forall_forall in Hf. apply (Hf y); [exact Hyl|].
      symmetry. exact Hy.
    - simpl. apply NoDup_singleton. }
  eexists. split; [reflexivity|].
  destruct (Nat.ltb 50 (length (l1 ++ [a]))) eqn:Elt.
  - apply Nat.ltb_lt in Elt. rewrite length_app in Elt. simpl in Elt.
    unfold slice_last. rewrite length_app. simpl.
    rewrite drop_app_le by lia. split; [|split].
    + eapply NoDup_path_sublist; [|exact Hn1].
      rewrite <- drop_app_le by lia. apply sublist_drop.
    + apply last_snoc.
    + rewrite length_app, length_drop. simpl. lia.
  - apply Nat.ltb_ge in Elt. split; [exact Hn1|]. split; [apply last_snoc|exact Elt].
Qed.

Definition inv (s : hstate) : Prop :=
  hist_ok (hist s) /\ hist_ok (saved s) /\ Forall hist_ok (pending_loads s).

Lemma hstep_inv (s : hstate) (o : hop) : inv s -> inv (hstep s o).
Proof.
  intros (Hh & Hs & Hl). destruct o as [a|cur| | | |i]; simpl.
  - destruct (addToHistory_ok (hist s) a Hh) as [l [-> [Hn _]]].
    split; [exact Hn|split; assumption].
  - destruct (hist s) as [l|] eqn:E; [|unfold inv; rewrite E; split; [exact I|split; assumption]].
    destruct cur as [cur|]; simpl; [|split; [exact I|split; assumption]].
    assert (Hf : NoDup (path <$> List.filter (fun info => existsb (fun c => same_path c info) cur) l)).
    { eapply NoDup_path_sublist; [apply filter_sublist_bool|]. exact Hh. }
    split; [exact Hf|split; assumption].
  - split; [exact I|split; assumption].
  - destruct (pending_saves s); [split; [|split]; assumption|].
    split; [|split]; assumption.
  - split; [exact Hh|split; [exact Hs|]]. apply Forall_app. split; [exact Hl|].
    constructor; [exact Hs|constructor].
  - destruct (pending_loads s !! i) as [v|] eqn:E; [|split; [|split]; assumption].
    split; [|split; [exact Hs|]].
    + eapply Forall_lookup_1; [exact Hl|exact E].
    + apply Forall_delete. exact Hl.
Qed.

Lemma hrun_inv (os : list hop) (s : hstate) : inv s -> inv (hrun s os).
Proof.
  revert s. induction os as [|o os IH]; intros s Hs; simpl; [exact Hs|].
  apply IH. apply hstep_inv. exact Hs.
Qed.

End HistoryProofs.

(** C2: starting from a fresh install, after any interleaving of history
    operations (additions, clean-ups, clears), of the deferred saves to
    [history.json] they schedule and of reloads from it, a call of [addToHistory(a)] yields a history with no two
    entries of the same path, with [a] as its last entry and at most 50
    entries. *)
Theorem addToHistory_dedup_last_capped : forall (os : list History.hop) (a : AudioInfo),
  exists l, History.addToHistory (History.hist (History.hrun History.hinit os)) a = Some l /\
    NoDup (path <$> l) /\ last l = Some a /\ (length l <= 50)%nat.
Proof.
  intros os a. apply HistoryProofs.addToHistory_ok.
  apply (HistoryProofs.hrun_inv os History.hinit). split; [exact I|split; [exact I|constructor]].
Qed.

(** C10: [cleanupHistory] with a list keeps exactly a sub-sequence of the
    history (relative order preserved) whose entries all have a path found
    in the list; with [null] it leaves no history. *)
Theorem cleanupHistory_filters_in_order : forall (h : History.history) (cur : list AudioInfo),
  History.cleanupHistory h None = None /\
  match History.cleanupHistory h (Some cur) with
  | Some r =>
      r `sublist_of` default [] h /\
      forall x, x ∈ r -> exists c, c ∈ cur /\ path c = path x
  | None => h = None
  end.
Proof.
  intros [l|] cur; simpl; split; try reflexivity.
  split; [apply HistoryProofs.filter_sublist_bool|].
  intros x Hx. apply list_elem_of_In, filter_In in Hx as [_ Hx].
  apply existsb_exists in Hx as [c [Hc Hcx]].
  exists c. split; [apply list_elem_of_In; exact Hc|].
  unfold History.same_path in Hcx. apply String.eqb_eq in Hcx. exact Hcx.
Qed.

(** ** Volume *)

Module VolumeProofs.
Import Volume.

Definition vol_ok (s : vstate) : Prop := 0 <= volume s <= 100.

Definition req_ok (r : request) : Prop := exists v, 0 <= v <= 100 /\ r = volume_request v.

Lemma slider_value_range (raw : Z) : 0 <= slider_value raw <= 100.
Proof. unfold slider_value. lia. Qed.

Lemma vstep_ok (s : vstate) (e : vev) :
  vol_ok s -> server_reply_ok e = true ->
  vol_ok (vstep s e).1 /\ Forall req_ok (vstep s e).2.
Proof.
  unfold vol_ok. intros Hs He. destruct e as [raw| |v]; simpl.
  - split; [apply slider_value_range|].
    constructor; [|constructor]. exists (slider_value raw).
    split; [apply slider_value_range|reflexivity].
  - split; [exact Hs|]. constructor; [|constructor].
    eexists. split; [|reflexivity]. destruct (negb (muted s)); lia.
  - simpl in He. apply andb_prop in He as [H1 H2].
    apply Z.leb_le in H1, H2. split; [simpl; lia|constructor].
Qed.

Lemma vrun_ok (es : list vev) (s : vstate) :
  vol_ok s -> Forall (fun e => server_reply_ok e = true) es ->
  vol_ok (vrun s es).1 /\ Forall req_ok (vrun s es).2.
Proof.
  revert s. induction es as [|e es IH]; intros s Hs Hes; simpl.
  - split; [exact Hs|constructor].
  - inversion Hes as [|? ? He Hes']; subst.
    destruct (vstep_ok s e Hs He) as [H1 H2].
    destruct (vstep s e) as [s1 r1] eqn:E1. simpl in *.
    destruct (IH s1 H1 Hes') as [H3 H4].
    destruct (vrun s1 es) as [s2 r2]. simpl in *.
    split; [exact H3|]. apply Forall_app. split; assumption.
Qed.

End VolumeProofs.

(** C1: for any sequence of slider changes, mute toggles and [load_audio]
    replies obeying the spec's 0..100 wire contract, every request the
    player issues is a [volume] request carrying an integer in [0,100] and
    the stored volume stays in [0,100]; a mute toggle sends 0 when it mutes
    and the stored volume when it unmutes. *)
Theorem volume_requests_in_range : forall es : list Volume.vev,
  Forall (fun e => Volume.server_reply_ok e = true) es ->
  (0 <= Volume.volume (Volume.vrun Volume.vinit es).1 <= 100 /\
   Forall (fun r => exists v, 0 <= v <= 100 /\ r = Volume.volume_request v)
     (Volume.vrun Volume.vinit es).2) /\
  (forall s, (Volume.toggleMute s).2 =
     [Volume.volume_request (if Volume.muted s then Volume.volume s else 0)]).
Proof.
  intros es Hes. split.
  - apply VolumeProofs.vrun_ok; [unfold VolumeProofs.vol_ok; simpl; lia|exact Hes].
  - intros [v [|]]; reflexivity.
Qed.

Lemma volume_requests_in_range_witness :
  (0 <= Volume.volume (Volume.vrun Volume.vinit
          [Volume.SliderChange 130; Volume.ToggleMute; Volume.LoadAudioReply 55;
           Volume.ToggleMute]).1 <= 100 /\
   Forall (fun r => exists v, 0 <= v <= 100 /\ r = Volume.volume_request v)
     (Volume.vrun Volume.vinit
          [Volume.SliderChange 130; Volume.ToggleMute; Volume.LoadAudioReply 55;
           Volume.ToggleMute]).2) /\
  (forall s, (Volume.toggleMute s).2 =
     [Volume.volume_request (if Volume.muted s then Volume.volume s else 0)]).
Proof.
  apply volume_requests_in_range. repeat constructor.
Defined.

(** ** Progress updates *)

Module ProgressProofs.
Import Progress.

(** Consecutive applied times, starting from [last], are at least one
    interval apart. *)
Fixpoint spaced (last : Z) (ts : list Z) : Prop :=
  match ts with
  | [] => True
  | t :: ts' => interval <= t - last /\ spaced t ts'
  end.

Lemma updateProgress_applies (now : Z) (pi : option snapshot) (s : pstate) :
  if applies s now pi then lastUpdated (updateProgress now pi s) = now /\
                           interval <= now - lastUpdated s
  else updateProgress now pi s = s.
Proof.
  unfold applies, updateProgress. destruct pi as [p|]; [|reflexivity].
  destruct (now - lastUpdated s <? interval) eqn:E; simpl; [reflexivity|].
  apply Z.ltb_ge in E. split; [reflexivity|exact E].
Qed.

Lemma applied_times_spaced (ms : list (Z * option snapshot)) (s : pstate) :
  spaced (lastUpdated s) (applied_times s ms).
Proof.
  revert s. induction ms as [|[now pi] ms IH]; intros s; simpl; [exact I|].
  pose proof (updateProgress_applies now pi s) as H.
  destruct (applies s now pi).
  - destruct H as [H1 H2]. simpl. split; [exact H2|].
    pose proof (IH (updateProgress now pi s)) as H3. rewrite H1 in H3. exact H3.
  - rewrite H. apply IH.
Qed.

End ProgressProofs.

(** C3 (the claim as stated fails): a first update applied at 1000 ms and a
    later one at 1100 ms; the later, latest snapshot never takes effect. *)
Lemma progress_latest_snapshot_dropped :
  Progress.p_progress (Progress.prun Progress.pinit
     [(1000, Some (Progress_snap 10)); (1100, Some (Progress_snap 20))]) = Some 10%Q /\
  Progress.p_progress (Progress.prun Progress.pinit
     [(1000, Some (Progress_snap 10)); (1100, Some (Progress_snap 20))]) <> Some 20%Q.
Proof. vm_compute. split; [reflexivity|discriminate]. Qed.

(** C3 (amended): snapshots are applied at most once per 330 ms interval:
    the times at which snapshots take effect are at least 330 ms apart
    (and 330 ms after the reference time); a callback applies its snapshot
    exactly when 330 ms have passed since the last applied one, and
    otherwise changes nothing (the snapshot is discarded, not deferred). *)
Theorem progress_throttle_drops_within_interval :
  forall (ms : list (Z * option Progress.snapshot)) (s : Progress.pstate),
  ProgressProofs.spaced (Progress.lastUpdated s) (Progress.applied_times s ms) /\
  (forall now p, Progress.applies s now (Some p) = true <->
                 Progress.interval <= now - Progress.lastUpdated s) /\
  (forall now pi, Progress.applies s now pi = false -> Progress.updateProgress now pi s = s) /\
  (forall now p, Progress.applies s now (Some p) = true ->
     Progress.lastUpdated (Progress.updateProgress now (Some p) s) = now /\
     (Progress.pauseAutomaticWsProgressUpdate s = false ->
      Progress.p_progress (Progress.updateProgress now (Some p) s) =
        Some (Progress.progress_percent p))).
Proof.
  intros ms s. split; [apply ProgressProofs.applied_times_spaced|]. split; [|split].
  - intros now p. unfold Progress.applies.
    rewrite negb_true_iff, Z.ltb_ge. reflexivity.
  - intros now pi H. pose proof (ProgressProofs.updateProgress_applies now pi s) as Hu.
    rewrite H in Hu. exact Hu.
  - intros now p H. unfold Progress.applies in H. apply negb_true_iff in H.
    unfold Progress.updateProgress. rewrite H. simpl. split; [reflexivity|].
    intros ->. reflexivity.
Qed.

Lemma progress_throttle_drops_within_interval_witness :
  ProgressProofs.spaced (Progress.lastUpdated Progress.pinit)
    (Progress.applied_times Progress.pinit
       [(1000, Some (Progress_snap 10)); (1100, Some (Progress_snap 20))]) /\
  (forall now p, Progress.applies Progress.pinit now (Some p) = true <->
                 Progress.interval <= now - Progress.lastUpdated Progress.pinit) /\
  (forall now pi, Progress.applies Progress.pinit now pi = false ->
                  Progress.updateProgress now pi Progress.pinit = Progress.pinit) /\
  (forall now p, Progress.applies Progress.pinit now (Some p) = true ->
     Progress.lastUpdated (Progress.updateProgress now (Some p) Progress.pinit) = now /\
     (Progress.pauseAutomaticWsProgressUpdate Progress.pinit = false ->
      Progress.p_progress (Progress.updateProgress now (Some p) Progress.pinit) =
        Some (Progress.progress_percent p))).
Proof. apply progress_throttle_drops_within_interval. Defined.

(** ** Metadata cache *)

(** C5 (the claim as stated fails): with [rescan = false] and a loadable
    [library.bin], [refreshAudioMetadata(false, true)] returns early: no
    [lastLibbinHash] is stored, yet nothing is rewritten. *)
Lemma refresh_cache_hit_no_rewrite :
  str_falsy None = true /\
  forall l, ~ In (SaveAudioMetadata l)
    (refreshAudioMetadata (fun _ => None) (fun l => l) (fun _ => "h1")
       false true (Some ["/music/a.wav"]) (Some []) None).
Proof. split; [reflexivity|]. intros l H. simpl in H. exact H. Qed.

(** C5 (amended): when [refreshAudioMetadata] runs with [writefile] enabled
    and rebuilds the metadata list (a file list is present and either a
    rescan is asked for or no [library.bin] could be loaded), [library.bin]
    is rewritten iff no non-empty [lastLibbinHash] is stored or the hash of
    the rebuilt list differs from it; every rewrite writes the rebuilt list
    and sets [lastLibbinHash] to its hash, and no other hash is stored.
    When [rescan] is false and [library.bin] loads, nothing is written. *)
Theorem refresh_rewrites_iff_hash_changed :
  forall getMediaInfo sort_by_name calculate_hash
         (rescan : bool) (fs : list string) (cached : option (list AudioInfo))
         (lastLibbinHash : option string),
  let final := sort_by_name (omap getMediaInfo fs) in
  let h := calculate_hash final in
  let eff := refreshAudioMetadata getMediaInfo sort_by_name calculate_hash
               rescan true (Some fs) cached lastLibbinHash in
  ((rescan = true \/ cached = None) ->
     ((exists l, In (SaveAudioMetadata l) eff) <->
        (str_falsy lastLibbinHash = true \/ lastLibbinHash <> Some h)) /\
     (forall l, In (SaveAudioMetadata l) eff -> l = final /\ In (SetLastLibbinHash h) eff) /\
     (forall h', In (SetLastLibbinHash h') eff -> h' = h)) /\
  (rescan = false -> cached <> None -> eff = []).
Proof.
  intros gm srt hash rescan fs cached stored final h eff. subst eff. split.
  - intros Hrb.
    assert (Hsel : (if rescan then None else cached) = None)
      by (destruct Hrb as [->| ->]; [reflexivity|destruct rescan; reflexivity]).
    unfold refreshAudioMetadata. rewrite Hsel. fold final. simpl.
    destruct (str_falsy stored) eqn:Ef.
    + split; [|split].
      * split; [intros _; left; reflexivity|intros _; exists final; left; reflexivity].
      * intros l [Hl|[Hl|[]]]; inversion Hl; subst.
        split; [reflexivity|right; left; reflexivity].
      * intros h' [Hl|[Hl|[]]]; inversion Hl. reflexivity.
    + fold h. destruct (bool_decide (Some h = stored)) eqn:Eb.
      * apply bool_decide_eq_true in Eb. subst stored. split; [|split].
        -- split; [intros [l []]|intros [H|H]; [discriminate|contradiction]].
        -- intros l [].
        -- intros h' [].
      * apply bool_decide_eq_false in Eb. split; [|split].
        -- split; [intros _; right; intros E; apply Eb; symmetry; exact E|].
           intros _. exists final. left. reflexivity.
        -- intros l [Hl|[Hl|[]]]; inversion Hl; subst.
           split; [reflexivity|right; left; reflexivity].
        -- intros h' [Hl|[Hl|[]]]; inversion Hl. reflexivity.
  - intros -> Hc. unfold refreshAudioMetadata. simpl.
    destruct cached; [reflexivity|contradiction].
Qed.

Lemma refresh_rewrites_iff_hash_changed_witness :
  ((exists l, In (SaveAudioMetadata l)
       (refreshAudioMetadata (fun _ => None) (fun l => l) (fun _ => "h1")
          true true (Some ["/music/a.wav"]) None (Some "h0"))) <->
     (str_falsy (Some "h0") = true \/ Some "h0" <> Some "h1")) /\
  refreshAudioMetadata (fun _ => None) (fun l => l) (fun _ => "h1")
    false true (Some ["/music/a.wav"]) (Some []) None = [].
Proof.
  split.
  - apply (refresh_rewrites_iff_hash_changed (fun _ => None) (fun l => l) (fun _ => "h1")
             true ["/music/a.wav"] None (Some "h0")).
    left. reflexivity.
  - apply (refresh_rewrites_iff_hash_changed (fun _ => None) (fun l => l) (fun _ => "h1")
             false ["/music/a.wav"] (Some []) None); [reflexivity|discriminate].
Defined.

(** ** Time formatting and the progress slider *)

Module TimingProofs.
Import Timing.

Lemma Qfloor_spec (z : Z) (x : Q) :
  (inject_Z z <= x)%Q -> (x < inject_Z z + 1)%Q -> Qfloor x = z.
Proof.
  intros H1 H2.
  pose proof (Qfloor_le x) as F1. pose proof (Qlt_floor x) as F2.
  rewrite inject_Z_plus in F2. change (inject_Z 1) with 1%Q in F2.
  assert (A : (z < Qfloor x + 1)%Z).
  { rewrite Zlt_Qlt, inject_Z_plus. change (inject_Z 1) with 1%Q. lra. }
  assert (B : (Qfloor x < z + 1)%Z).
  { rewrite Zlt_Qlt, inject_Z_plus. change (inject_Z 1) with 1%Q. lra. }
  lia.
Qed.

Lemma Qfloor_bounds (x : Q) :
  (inject_Z (Qfloor x) <= x)%Q /\ (x < inject_Z (Qfloor x) + 1)%Q.
Proof.
  split; [apply Qfloor_le|]. pose proof (Qlt_floor x) as F.
  rewrite inject_Z_plus in F. exact F.
Qed.

(** [floor(d / k) = floor(floor(d) / k)] for a positive integer [k]. *)
Lemma Qfloor_div_Z (d : Q) (k : Z) :
  (0 < k)%Z -> Qfloor (d / inject_Z k) = (Qfloor d / k)%Z.
Proof.
  intros Hk. destruct (Qfloor_bounds d) as [Hn1 Hn2].
  set (n := Qfloor d) in *.
  pose proof (Z.div_mod n k ltac:(lia)) as Hdm.
  pose proof (Z.mod_pos_bound n k Hk) as Hr.
  set (q := (n / k)%Z) in *. set (r := (n mod k)%Z) in *.
  assert (Hkq : (0 < inject_Z k)%Q) by (change 0%Q with (inject_Z 0); rewrite <- Zlt_Qlt; lia).
  apply Qfloor_spec.
  - apply Qle_shift_div_l; [exact Hkq|].
    rewrite <- inject_Z_mult.
    assert (E : (inject_Z (q * k) <= inject_Z n)%Q) by (rewrite <- Zle_Qle; lia).
    lra.
  - apply Qlt_shift_div_r; [exact Hkq|].
    assert (E : (inject_Z n + 1 <= (inject_Z q + 1) * inject_Z k)%Q).
    { change 1%Q with (inject_Z 1). rewrite <- !inject_Z_plus, <- inject_Z_mult.
      rewrite <- Zle_Qle. lia. }
    lra.
Qed.

Lemma Qfloor_plus_Z (x : Q) (z : Z) : Qfloor (x + inject_Z z) = (Qfloor x + z)%Z.
Proof.
  destruct (Qfloor_bounds x) as [H1 H2].
  apply Qfloor_spec; rewrite inject_Z_plus; lra.
Qed.

Lemma Qtrunc_nonneg (x : Q) : (0 <= x)%Q -> Qtrunc x = Qfloor x.
Proof.
  intros H. unfold Qtrunc. apply Qle_bool_iff in H. rewrite H. reflexivity.
Qed.

Lemma div_nonneg (d : Q) (k : Z) : (0 < k)%Z -> (0 <= d)%Q -> (0 <= d / inject_Z k)%Q.
Proof.
  intros Hk Hd. apply Qle_shift_div_l; [change 0%Q with (inject_Z 0); rewrite <- Zlt_Qlt; lia|].
  rewrite Qmult_0_l. exact Hd.
Qed.

(** [floor(d % k) = floor(d) mod k] for [d >= 0] and a positive integer [k]. *)
Lemma Qfloor_jsmod (d : Q) (k : Z) :
  (0 < k)%Z -> (0 <= d)%Q -> Qfloor (jsmod d (inject_Z k)) = (Qfloor d mod k)%Z.
Proof.
  intros Hk Hd. unfold jsmod.
  rewrite Qtrunc_nonneg by (apply div_nonneg; assumption).
  rewrite Qfloor_div_Z by exact Hk.
  assert (E : (d - inject_Z k * inject_Z (Qfloor d / k)
               == d + inject_Z (- (k * (Qfloor d / k))))%Q)
    by (rewrite inject_Z_opp, inject_Z_mult; ring).
  rewrite E, Qfloor_plus_Z. rewrite Z.mod_eq by lia. lia.
Qed.

Lemma jsmod_bounds (d : Q) (k : Z) :
  (0 < k)%Z -> (0 <= d)%Q -> (0 <= jsmod d (inject_Z k) < inject_Z k)%Q.
Proof.
  intros Hk Hd. unfold jsmod.
  rewrite Qtrunc_nonneg by (apply div_nonneg; assumption).
  rewrite Qfloor_div_Z by exact Hk.
  destruct (Qfloor_bounds d) as [H1 H2]. set (n := Qfloor d) in *.
  pose proof (Z.div_mod n k ltac:(lia)) as Hdm.
  pose proof (Z.mod_pos_bound n k Hk) as Hr.
  set (q := (n / k)%Z) in *. set (r := (n mod k)%Z) in *.
  rewrite <- inject_Z_mult.
  assert (A : (inject_Z (k * q) <= inject_Z n)%Q) by (rewrite <- Zle_Qle; lia).
  assert (B : (inject_Z n + 1 <= inject_Z (k * q) + inject_Z k)%Q).
  { change 1%Q with (inject_Z 1). rewrite <- !inject_Z_plus, <- Zle_Qle. lia. }
  split; lra.
Qed.

End TimingProofs.

Module TimingFacts.
Import Timing TimingProofs.

(** X3: for a duration [d >= 0], the numbers [formatDuration] prints are a
    mixed-radix decomposition of [floor(d)]: hours [h >= 0], minutes and
    seconds in [0, 59] with [3600 h + 60 m + s = floor(d)], and a tenths digit
    [milliseconds div 100] in [0, 9]. *)
Theorem duration_parts_decompose (d : Q) :
  (0 <= d)%Q ->
  let '(h, m, s, ms) := duration_parts d in
  (0 <= h /\ 0 <= m < 60 /\ 0 <= s < 60 /\ 0 <= Z.div ms 100 <= 9 /\
   3600 * h + 60 * m + s = Qfloor d)%Z.
Proof.
  intros Hd. unfold duration_parts.
  change (d / 3600)%Q with (d / inject_Z 3600)%Q.
  change (jsmod d 3600) with (jsmod d (inject_Z 3600)).
  change (jsmod d 60) with (jsmod d (inject_Z 60)).
  change (jsmod d 1) with (jsmod d (inject_Z 1)).
  change (jsmod d (inject_Z 3600) / 60)%Q with (jsmod d (inject_Z 3600) / inject_Z 60)%Q.
  rewrite (Qfloor_div_Z d 3600), Qfloor_div_Z, !Qfloor_jsmod by lia || assumption.
  pose proof (jsmod_bounds d 1 ltac:(lia) Hd) as [J1 J2].
  set (x := jsmod d (inject_Z 1)) in *.
  assert (M1 : (0 <= Qfloor (x * 1000))%Z).
  { change 0%Z with (Qfloor 0). apply Qfloor_resp_le.
    change (inject_Z 1) with 1%Q in J2. lra. }
  assert (M2 : (Qfloor (x * 1000) < 1000)%Z).
  { rewrite Zlt_Qlt. pose proof (Qfloor_le (x * 1000)) as F.
    change (inject_Z 1) with 1%Q in J2. change (inject_Z 1000) with 1000%Q. lra. }
  set (n := Qfloor d). set (ms := Qfloor (x * 1000)).
  pose proof (Z.div_mod n 3600 ltac:(lia)).
  pose proof (Z.mod_pos_bound n 3600 ltac:(lia)).
  pose proof (Z.div_mod (n mod 3600) 60 ltac:(lia)).
  pose proof (Z.mod_pos_bound (n mod 3600) 60 ltac:(lia)).
  pose proof (Z.div_mod n 60 ltac:(lia)).
  pose proof (Z.mod_pos_bound n 60 ltac:(lia)).
  pose proof (Z.div_mod ms 100 ltac:(lia)).
  pose proof (Z.mod_pos_bound ms 100 ltac:(lia)).
  assert (Hn : (0 <= n)%Z).
  { change 0%Z with (Qfloor 0). apply Qfloor_resp_le. exact Hd. }
  assert (0 <= n / 3600)%Z by (apply Z.div_pos; lia).
  unfold Z.div in *. lia.
Qed.

(** X4: with a progress in [0, 100] and a positive duration, the value the
    progress slider shows lies between [0] and the slider's [max]. *)
Theorem calcSliderValue_within_slider (p d : Q) :
  (0 <= p <= 100)%Q -> (0 < d)%Q ->
  (0 <= calcSliderValue (Some p) (Some d) <= slider_max (Some d))%Z.
Proof.
  intros [Hp0 Hp1] Hd. unfold calcSliderValue, slider_max, Qround; simpl default.
  assert (Hne : Qeq_bool d 0 = false).
  { apply not_true_iff_false. intros E. apply Qeq_bool_eq in E. lra. }
  rewrite Hne.
  assert (Y0 : (0 <= p / 100 * d)%Q).
  { apply Qmult_le_0_compat; [|lra]. apply Qle_shift_div_l; lra. }
  assert (Y1 : (p / 100 * d <= d)%Q).
  { apply Qle_trans with (1 * d)%Q; [|lra].
    apply Qmult_le_compat_r; [|lra]. apply Qle_shift_div_r; lra. }
  set (y := (p / 100 * d)%Q) in *.
  pose proof (Qle_ceiling (d * 1000)) as C.
  set (c := Qceiling (d * 1000)) in *.
  split.
  - change 0%Z with (Qfloor 0). apply Qfloor_resp_le. lra.
  - pose proof (Qfloor_le (y * 1000 + (1 # 2))) as F.
    assert (Qfloor (y * 1000 + (1 # 2)) < c + 1)%Z as L.
    { rewrite Zlt_Qlt, inject_Z_plus. change (inject_Z 1) with 1%Q. lra. }
    lia.
Qed.

(** X5: committing a value on the progress slider sends nothing whenever
    the player plays or the duration is unknown, whatever the value;
    otherwise, for a positive duration and a value between [0] and the
    slider's [max], it sends exactly one [seek] whose [time] lies within
    [[0, duration]]. *)
Theorem onValueCommit_seek_in_range :
  (forall (duration : option Q) (value : Q), onValueCommit duration true value = []) /\
  (forall (isPlaying : bool) (value : Q), onValueCommit None isPlaying value = []) /\
  (forall d value : Q,
     (0 < d)%Q -> (0 <= value <= inject_Z (slider_max (Some d)))%Q ->
     exists t, onValueCommit (Some d) false value = [("seek", Some (JObj [("time", JNum t)]))]
               /\ (0 <= t <= d)%Q).
Proof.
  split; [intros [d|] value; reflexivity|]. split; [reflexivity|].
  intros d value Hd [Hv0 Hv1].
  eexists. split; [reflexivity|].
  pose proof (Qle_ceiling (default 0%Q (Some d) * 1000)) as C. simpl default in C.
  unfold slider_max in *; simpl default in *.
  set (c := inject_Z (Qceiling (d * 1000))) in *.
  assert (Hc : (0 < c)%Q) by lra.
  assert (R0 : (0 <= value / c)%Q) by (apply Qle_shift_div_l; lra).
  assert (R1 : (value / c <= 1)%Q) by (apply Qle_shift_div_r; lra).
  set (r := (value / c)%Q) in *.
  assert (E : (r * 100 / 100 * d == r * d)%Q) by field.
  rewrite E. split.
  - apply Qmult_le_0_compat; lra.
  - apply Qle_trans with (1 * d)%Q; [|lra].
    apply Qmult_le_compat_r; lra.
Qed.

(** X6: [cycleMediaDataLoopModes] always yields one of the loop modes; it
    steps [none -> all -> one -> none], so three steps return every mode to
    itself and one step always changes it; an unknown mode becomes [none]. *)
Theorem cycleMediaDataLoopModes_cycle :
  (forall m, cycleMediaDataLoopModes m ∈ loopModes) /\
  cycleMediaDataLoopModes "none" = "all" /\
  cycleMediaDataLoopModes "all" = "one" /\
  cycleMediaDataLoopModes "one" = "none" /\
  (forall m, m ∈ loopModes ->
     cycleMediaDataLoopModes (cycleMediaDataLoopModes (cycleMediaDataLoopModes m)) = m /\
     cycleMediaDataLoopModes m <> m) /\
  (forall m, m ∉ loopModes -> cycleMediaDataLoopModes m = "none").
Proof.
  assert (Unk : forall m, m ∉ loopModes -> cycleMediaDataLoopModes m = "none").
  { intros m Hm. unfold cycleMediaDataLoopModes, indexOf, loopModes in *; simpl.
    destruct (String.eqb_spec m "none") as [->|N1]; [set_solver|].
    destruct (String.eqb_spec m "all") as [->|N2]; [set_solver|].
    destruct (String.eqb_spec m "one") as [->|N3]; [set_solver|].
    reflexivity. }
  split.
  { intros m. destruct (decide (m ∈ loopModes)) as [Hm|Hm].
    - unfold loopModes in Hm. repeat (apply elem_of_cons in Hm as [->|Hm]);
        [vm_compute; set_solver.. | apply elem_of_nil in Hm as []].
    - rewrite (Unk m Hm). set_solver. }
  split; [reflexivity|]. split; [reflexivity|]. split; [reflexivity|].
  split; [|exact Unk].
  intros m Hm. unfold loopModes in Hm.
  repeat (apply elem_of_cons in Hm as [->|Hm]);
    [vm_compute; split; [reflexivity|congruence]..| apply elem_of_nil in Hm as []].
Qed.

End TimingFacts.

(** ** History: persistence and repeated additions *)

Module HistoryFacts.
Import History.

Lemma findIndex_app_absent (a : AudioInfo) (l1 : list AudioInfo) :
  Forall (fun y => path y <> path a) l1 ->
  findIndex (fun info => same_path info a) (l1 ++ [a]) = Some (length l1).
Proof.
  induction l1 as [|x l1 IH]; intros Hf; simpl.
  - unfold same_path. rewrite String.eqb_refl. reflexivity.
  - apply Forall_cons in Hf as [Hx Hf]. unfold same_path at 1.
    destruct (String.eqb_spec (path x) (path a)) as [E|_]; [contradiction|].
    rewrite IH by exact Hf. reflexivity.
Qed.

(** [addToHistory] leaves unchanged a history without duplicate paths, of at
    most 50 entries, whose last entry is the one added. *)
Lemma addToHistory_fixed (l : list AudioInfo) (a : AudioInfo) :
  NoDup (path <$> l) -> last l = Some a -> (length l <= 50)%nat ->
  addToHistory (Some l) a = Some l.
Proof.
  intros Hn Hl Hlen. apply last_Some in Hl as [l1 ->].
  rewrite fmap_app in Hn. apply NoDup_app in Hn as [_ [Hd _]].
  assert (Hf : Forall (fun y => path y <> path a) l1).
  { apply Forall_forall. intros y Hy E. apply (Hd (path y)).
    - apply list_elem_of_fmap_2. exact Hy.
    - rewrite E. simpl. apply list_elem_of_singleton. reflexivity. }
  unfold addToHistory. rewrite findIndex_app_absent by exact Hf.
  assert (Hs : splice1 (l1 ++ [a]) (length l1) = l1).
  { unfold splice1. rewrite take_app_length, drop_ge by (rewrite length_app; simpl; lia).
    apply app_nil_r. }
  rewrite Hs. destruct (Nat.ltb_spec 50 (length (l1 ++ [a]))); [lia|reflexivity].
Qed.

(** X8: from a fresh install, after any interleaving of history operations,
    deferred saves and reloads from [history.json], adding the same asset twice in a row gives the same history as adding it
    once. *)
Theorem addToHistory_idempotent (os : list hop) (a : AudioInfo) :
  let h := addToHistory (hist (hrun hinit os)) a in
  addToHistory h a = h.
Proof.
  simpl. destruct (HistoryProofs.addToHistory_ok (hist (hrun hinit os)) a) as [l [E [Hn [Hl Hlen]]]].
  { apply (HistoryProofs.hrun_inv os hinit). split; [exact I|split; [exact I|constructor]]. }
  rewrite E. apply addToHistory_fixed; assumption.
Qed.

End HistoryFacts.

(** ** Reply handlers and the transport controls *)

Module HandlerFacts.
Import Handlers.

(** X9: once a [playback_completed] message is handled, the player is
    stopped at 100 % with the reported duration, and the next
    [togglePlayPause] sends [seek] to 0 before [play] exactly when the
    message reported [audio_completed]; after an [error] message it never
    sends [pause]. *)
Theorem playback_completed_then_toggle (s : mp_state) (ac : bool) (d : Q) :
  let s' := playAudioHandler (PlaybackCompleted ac d) s in
  mp_progress s' = Some 100%Q /\ mp_duration s' = Some d /\
  togglePlayPause (to_flags s') =
    (if ac then [("seek", Some (JObj [("time", JNum 0%Q)]))] else []) ++ [("play", None)] /\
  togglePlayPause (to_flags (playAudioHandler PlayError s)) =
    (if mp_playbackCompleted s then [("seek", Some (JObj [("time", JNum 0%Q)]))] else [])
    ++ [("play", None)].
Proof.
  simpl. split; [reflexivity|]. split; [reflexivity|]. split; reflexivity.
Qed.

Lemma ratio_percent (gen total : Q) :
  (0 <= gen <= total)%Q -> (0 < total)%Q -> (0 <= gen / total * 100 <= 100)%Q.
Proof.
  intros [H0 H1] Ht.
  assert (R0 : (0 <= gen / total)%Q) by (apply Qle_shift_div_l; lra).
  assert (R1 : (gen / total <= 1)%Q) by (apply Qle_shift_div_r; lra).
  lra.
Qed.

(** X10: an [error] reply to [load_audio] leaves the player state
    unchanged; a successful reply whose [player_info.sample_generated] lies
    between 0 and a positive [total_audio_samples] sets a progress within
    [0, 100]. *)
Theorem handlers_progress_in_percent (pi : player_info) (s : mp_state) :
  (0 <= pi_sample_generated pi <= pi_total_audio_samples pi)%Q ->
  (0 < pi_total_audio_samples pi)%Q ->
  loadAudioHandler None s = s /\
  (exists p, mp_progress (loadAudioHandler (Some pi) s) = Some p /\ (0 <= p <= 100)%Q).
Proof.
  intros Hl Hlt. split; [reflexivity|].
  eexists. split; [reflexivity|]. apply ratio_percent; assumption.
Qed.

End HandlerFacts.

(** ** getCurrentChapter: the chapter returned *)

Module ChapterFacts.

Lemma findIndex_Some {A} (f : A -> bool) (l : list A) (k : nat) :
  findIndex f l = Some k ->
  (exists x, l !! k = Some x /\ f x = true) /\
  (forall j y, (j < k)%nat -> l !! j = Some y -> f y = false).
Proof.
  revert k. induction l as [|x l IH]; intros k H; simpl in H; [discriminate|].
  destruct (f x) eqn:Fx.
  - injection H as <-. split; [exists x; auto|]. intros j y Hj. lia.
  - destruct (findIndex f l) as [k'|] eqn:E; simpl in H; [|discriminate].
    injection H as <-. destruct (IH k' eq_refl) as [[y [Hy Fy]] Hb].
    split; [exists y; auto|].
    intros [|j] z Hj Hz; simpl in Hz; [congruence|]. apply (Hb j); [lia|exact Hz].
Qed.

Lemma findIndex_None {A} (f : A -> bool) (l : list A) :
  findIndex f l = None -> forall j y, l !! j = Some y -> f y = false.
Proof.
  induction l as [|x l IH]; intros H j y Hy; simpl in H; [discriminate|].
  destruct (f x) eqn:Fx; [discriminate|].
  destruct (findIndex f l) eqn:E; simpl in H; [discriminate|].
  destruct j as [|j]; simpl in Hy; [congruence|]. apply (IH eq_refl j). exact Hy.
Qed.

Lemma Qltb_false (a b : Q) : Qltb a b = false -> (b <= a)%Q.
Proof. unfold Qltb. intros H. apply negb_false_iff, Qle_bool_iff in H. exact H. Qed.

Lemma Qltb_true (a b : Q) : Qltb a b = true -> (a < b)%Q.
Proof.
  unfold Qltb. intros H. apply negb_true_iff in H. apply Qnot_le_lt.
  intros L. apply Qle_bool_iff in L. congruence.
Qed.

(** X2: for a non-zero progress, the chapter [getCurrentChapter] returns
    starts at or before the current time [progress / 100 * duration], and the
    chapter after it, if any, starts after that time; the chapter list need
    not be sorted. *)
Theorem getCurrentChapter_brackets_time (ai : option AudioInfo) (cs : list AudioChapterInfo)
    (p d : Q) (i : nat) (ch : AudioChapterInfo) :
  ai ≫= chapters = Some cs -> ~ (p == 0)%Q ->
  getCurrentChapter ai (Some p) (Some d) = Some (i, ch) ->
  (timestamp ch <= p / 100 * d)%Q /\
  (forall ch', cs !! S i = Some ch' -> (p / 100 * d < timestamp ch')%Q).
Proof.
  unfold getCurrentChapter. intros Hcs Hp H. rewrite Hcs in H.
  destruct cs as [|c0 cs']; [discriminate|].
  destruct (num_falsy (Some d)); [discriminate|]. simpl default in H.
  assert (Hpz : Qeq_bool p 0 = false).
  { apply not_true_iff_false. intros E. apply Qeq_bool_eq in E. contradiction. }
  rewrite Hpz in H.
  set (t := (p / 100 * d)%Q) in *.
  destruct (findIndex (fun ch => Qltb t (timestamp ch)) (c0 :: cs')) as [[|k]|] eqn:F.
  - discriminate.
  - destruct ((c0 :: cs') !! k) eqn:E; simpl in H; [|discriminate].
    injection H as <- <-.
    destruct (findIndex_Some _ _ _ F) as [[x [Hx Fx]] Hb]. split.
    + apply Qltb_false. apply (Hb k); [lia|exact E].
    + intros ch' Hch'. rewrite Hch' in Hx. injection Hx as ->. apply Qltb_true. exact Fx.
  - set (n := (length (c0 :: cs') - 1)%nat) in H.
    destruct ((c0 :: cs') !! n) eqn:E; simpl in H; [|discriminate].
    injection H as <- <-. split.
    + apply Qltb_false. apply (findIndex_None _ _ F n). exact E.
    + intros ch' Hch'. exfalso.
      rewrite lookup_ge_None_2 in Hch'; [discriminate|]. unfold n. simpl. lia.
Qed.

End ChapterFacts.

(** ** libraryInfo.svelte.ts: store round trips *)

Module LibraryFacts.
Import LibraryStore.

Lemma libraryKey_ne_hash : libraryKey <> lastLibbinHashKey.
Proof. unfold libraryKey, lastLibbinHashKey. discriminate. Qed.

Lemma scanKey_ne_hash : scanRecursiveLevelKey <> lastLibbinHashKey.
Proof. unfold scanRecursiveLevelKey, lastLibbinHashKey. discriminate. Qed.

Lemma scanKey_ne_library : scanRecursiveLevelKey <> libraryKey.
Proof. unfold scanRecursiveLevelKey, libraryKey. discriminate. Qed.

Lemma mapM_dir_of_encoded (stats : list LibraryDirInfo) :
  mapM dir_of (encode_dir_info <$> stats) = Some ((fun i => Some (JStr (dir i))) <$> stats).
Proof.
  induction stats as [|i stats IH]; [reflexivity|].
  simpl. unfold fmap in IH. rewrite IH. reflexivity.
Qed.

Lemma listLibraryDirs_update (st : store) (lib : Library) :
  listLibraryDirs (updateLibraryStore st lib) =
    Some ((fun i => Some (JStr (dir i))) <$> libraryStats lib).
Proof.
  unfold listLibraryDirs, updateLibraryStore. rewrite lookup_insert_eq.
  simpl. apply mapM_dir_of_encoded.
Qed.

(** A read of the scan level writes it when it is missing, and leaves the
    store holding it as a number. *)
Lemma getScanRecursiveLevel_stored (st : store) :
  (getScanRecursiveLevel st).1 !! scanRecursiveLevelKey = Some (JNum (getScanRecursiveLevel st).2).
Proof.
  unfold getScanRecursiveLevel.
  destruct (st !! scanRecursiveLevelKey) as [[| |q| | |]|] eqn:E; simpl;
    try (unfold setScanRecursiveLevel; apply lookup_insert_eq). exact E.
Qed.

Lemma getScanRecursiveLevel_numeric (st : store) (q : Q) :
  st !! scanRecursiveLevelKey = Some (JNum q) -> getScanRecursiveLevel st = (st, q).
Proof. intros E. unfold getScanRecursiveLevel. rewrite E. reflexivity. Qed.

(** X12: after [updateLibraryStore] with a library, [listLibraryDirs] returns
    the [dir] of each of its [libraryStats] entries, in order. *)
Theorem listLibraryDirs_after_update (st : store) (lib : Library) :
  listLibraryDirs (updateLibraryStore st lib) =
    Some ((fun i => Some (JStr (dir i))) <$> libraryStats lib).
Proof. apply listLibraryDirs_update. Qed.

(** X13: [getLastLibbinHash] returns the hash last given to
    [setLastLibbinHash]; setting the hash changes neither the library
    directories listed nor the scan level read. *)
Theorem lastLibbinHash_roundtrip (st : store) (h : string) :
  getLastLibbinHash (setLastLibbinHash st h) = Some (JStr h) /\
  listLibraryDirs (setLastLibbinHash st h) = listLibraryDirs st /\
  (getScanRecursiveLevel (setLastLibbinHash st h)).2 = (getScanRecursiveLevel st).2.
Proof.
  unfold getLastLibbinHash, setLastLibbinHash. split; [apply lookup_insert_eq|]. split.
  - unfold listLibraryDirs. rewrite lookup_insert_ne by (apply not_eq_sym, libraryKey_ne_hash).
    reflexivity.
  - unfold getScanRecursiveLevel.
    rewrite lookup_insert_ne by (apply not_eq_sym, scanKey_ne_hash).
    destruct (st !! scanRecursiveLevelKey) as [[]|]; reflexivity.
Qed.

(** X14: [getScanRecursiveLevel] after [setScanRecursiveLevel(level)]
    returns [level] and writes nothing; and a second read after any read
    returns the same level and writes nothing. *)
Theorem scanRecursiveLevel_roundtrip (st : store) (level : Q) :
  getScanRecursiveLevel (setScanRecursiveLevel st level) = (setScanRecursiveLevel st level, level) /\
  getScanRecursiveLevel (getScanRecursiveLevel st).1 = getScanRecursiveLevel st.
Proof.
  split.
  - apply getScanRecursiveLevel_numeric. apply lookup_insert_eq.
  - destruct (getScanRecursiveLevel st) as [st1 q] eqn:G.
    apply getScanRecursiveLevel_numeric.
    pose proof (getScanRecursiveLevel_stored st) as S. rewrite G in S. exact S.
Qed.

(** X15: when [rescanLibrary] stores a new library, the scanner was called
    with the directories [listLibraryDirs] read and with the stored scan
    level (4 when missing); the new store lists the new library's
    directories and holds that scan level. *)
Theorem rescanLibrary_stores_scan (scan : list (option jval) -> Q -> option (list string * list LibraryDirInfo))
    (st st' : store) (lib : Library) :
  rescanLibrary scan st = Some (st', Some lib) ->
  (exists dirs, listLibraryDirs st = Some dirs /\
     scan dirs (getScanRecursiveLevel st).2 = Some (audioFiles lib, libraryStats lib)) /\
  listLibraryDirs st' = Some ((fun i => Some (JStr (dir i))) <$> libraryStats lib) /\
  st' !! scanRecursiveLevelKey = Some (JNum (getScanRecursiveLevel st).2).
Proof.
  unfold rescanLibrary. intros H.
  destruct (listLibraryDirs st) as [dirs|] eqn:E; simpl in H; [|discriminate].
  pose proof (getScanRecursiveLevel_stored st) as S.
  destruct (getScanRecursiveLevel st) as [st1 lvl] eqn:G. simpl in S |- *.
  destruct (scan dirs lvl) as [[paths stats]|] eqn:Sc; [|discriminate].
  injection H as <- <-. simpl. split; [exists dirs; auto|]. split.
  - apply listLibraryDirs_update.
  - unfold updateLibraryStore. rewrite lookup_insert_ne by (apply not_eq_sym, scanKey_ne_library).
    exact S.
Qed.

(** X16: with [writefile], a second [refreshAudioMetadata] on the same files
    and cache, run on the store the first one left, writes nothing, provided
    the computed hash is not the empty string. *)
Theorem refresh_twice_writes_nothing getMediaInfo sort_by_name calculate_hash
    (rescan : bool) (fs : list string) (cached : option (list AudioInfo)) (st : store) :
  calculate_hash (sort_by_name (omap getMediaInfo fs)) <> "" ->
  let refresh st := refreshAudioMetadata getMediaInfo sort_by_name calculate_hash
                      rescan true (Some fs) cached (stored_hash st) in
  refresh (apply_effects st (refresh st)) = [].
Proof.
  intros Hne. simpl. unfold refreshAudioMetadata.
  destruct (if rescan then None else cached) as [c|]; [reflexivity|]. simpl.
  set (h := calculate_hash (sort_by_name (omap getMediaInfo fs))) in *.
  assert (Hset : forall st0, stored_hash (apply_effects st0
                   [SaveAudioMetadata (sort_by_name (omap getMediaInfo fs)); SetLastLibbinHash h])
                   = Some h).
  { intros st0. unfold stored_hash, getLastLibbinHash, apply_effects. cbn [fold_left].
    unfold setLastLibbinHash. rewrite lookup_insert_eq. reflexivity. }
  assert (Hfin : str_falsy (Some h) = false) by (simpl; apply String.eqb_neq; exact Hne).
  assert (Hdec : bool_decide (Some h = Some h) = true) by (apply bool_decide_true; reflexivity).
  destruct (str_falsy (stored_hash st)) eqn:F.
  - rewrite Hset, Hfin, Hdec. reflexivity.
  - destruct (bool_decide (Some h = stored_hash st)) eqn:B.
    + simpl. rewrite F, B. reflexivity.
    + rewrite Hset, Hfin, Hdec. reflexivity.
Qed.

End LibraryFacts.

(** ** Examples at concrete inputs *)

Module ExtraExamples.

(** 3725.5 s is 1 h 2 min 5 s and 5 tenths. *)
Lemma duration_parts_decompose_witness :
  let '(h, m, s, ms) := Timing.duration_parts (7451 # 2) in
  (0 <= h /\ 0 <= m < 60 /\ 0 <= s < 60 /\ 0 <= Z.div ms 100 <= 9 /\
   3600 * h + 60 * m + s = Qfloor (7451 # 2))%Z.
Proof.
  apply (TimingFacts.duration_parts_decompose (7451 # 2)).
  apply Qle_bool_iff. reflexivity.
Defined.

Lemma calcSliderValue_within_slider_witness :
  (0 <= Timing.calcSliderValue (Some 50%Q) (Some (1 # 3)) <= Timing.slider_max (Some (1 # 3)))%Z.
Proof.
  apply (TimingFacts.calcSliderValue_within_slider 50 (1 # 3)).
  - split; apply Qle_bool_iff; reflexivity.
  - reflexivity.
Defined.

Lemma onValueCommit_seek_in_range_witness :
  Timing.onValueCommit (Some 10%Q) true 5000 = [] /\
  Timing.onValueCommit None false 5000 = [] /\
  exists t, Timing.onValueCommit (Some 10%Q) false 5000 =
              [("seek", Some (JObj [("time", JNum t)]))] /\ (0 <= t <= 10)%Q.
Proof.
  destruct TimingFacts.onValueCommit_seek_in_range as [Hplay [Hnone Hseek]].
  split; [apply Hplay|]. split; [apply Hnone|].
  apply Hseek.
  - reflexivity.
  - split; apply Qle_bool_iff; vm_compute; reflexivity.
Defined.

Lemma handlers_progress_in_percent_witness :
  let pi := {| Handlers.pi_duration := 10; Handlers.pi_playing := true;
               Handlers.pi_sample_generated := 441; Handlers.pi_total_audio_samples := 882;
               Handlers.pi_volume := 80; Handlers.pi_flip_lr_stereo := None |} in
  let s := {| Handlers.mp_duration := None; Handlers.mp_isPlaying := false;
              Handlers.mp_playbackCompleted := false; Handlers.mp_progress := None;
              Handlers.mp_volume := 80; Handlers.mp_flipLRStereo := None |} in
  Handlers.loadAudioHandler None s = s /\
  (exists p, Handlers.mp_progress (Handlers.loadAudioHandler (Some pi) s) = Some p /\
             (0 <= p <= 100)%Q).
Proof.
  intros pi s. apply (HandlerFacts.handlers_progress_in_percent pi s).
  - split; apply Qle_bool_iff; reflexivity.
  - reflexivity.
Defined.

(** Half-way through the 100 s asset, i.e. at 50 s, the chapter that
    started at 40 s is playing and the next one starts at 60 s. *)
Lemma getCurrentChapter_brackets_time_witness :
  (timestamp (chapter_at 40 "Verse 1") <= 50 / 100 * 100)%Q /\
  (forall ch', [chapter_at 40 "Verse 1"; chapter_at 60 "Verse 2"] !! 1%nat = Some ch' ->
     (50 / 100 * 100 < timestamp ch')%Q).
Proof.
  apply (ChapterFacts.getCurrentChapter_brackets_time (Some asset_late_chapter)
           [chapter_at 40 "Verse 1"; chapter_at 60 "Verse 2"] 50 100 0 (chapter_at 40 "Verse 1")).
  - reflexivity.
  - vm_compute. discriminate.
  - reflexivity.
Defined.

Definition example_scan (dirs : list (option jval)) (level : Q)
    : option (list string * list LibraryStore.LibraryDirInfo) :=
  Some (["/m/a.flac"], [{| LibraryStore.dir := "/m"; LibraryStore.fileCount := 1 |}]).

Definition example_library : LibraryStore.Library :=
  {| LibraryStore.audioFiles := ["/m/a.flac"];
     LibraryStore.libraryStats := [{| LibraryStore.dir := "/m"; LibraryStore.fileCount := 1 |}] |}.

(** A first scan on an empty store: no directories, the default level 4. *)
Lemma rescanLibrary_stores_scan_witness :
  (exists dirs, LibraryStore.listLibraryDirs ∅ = Some dirs /\
     example_scan dirs (getScanRecursiveLevel ∅).2 =
       Some (LibraryStore.audioFiles example_library, LibraryStore.libraryStats example_library)) /\
  LibraryStore.listLibraryDirs
    (LibraryStore.updateLibraryStore (setScanRecursiveLevel ∅ 4) example_library) =
    Some ((fun i => Some (JStr (LibraryStore.dir i))) <$> LibraryStore.libraryStats example_library) /\
  LibraryStore.updateLibraryStore (setScanRecursiveLevel ∅ 4) example_library
    !! scanRecursiveLevelKey = Some (JNum (getScanRecursiveLevel ∅).2).
Proof.
  apply (LibraryFacts.rescanLibrary_stores_scan example_scan ∅
           (LibraryStore.updateLibraryStore (setScanRecursiveLevel ∅ 4) example_library)
           example_library).
  reflexivity.
Defined.

Definition example_media_info (p : string) : option AudioInfo :=
  Some {| name := p; path := p; duration := 1; chapters := None |}.

Lemma refresh_twice_writes_nothing_witness :
  let refresh st := refreshAudioMetadata example_media_info (fun l => l) (fun _ => "h1")
                      true true (Some ["/m/a.flac"]) None (LibraryStore.stored_hash st) in
  refresh (LibraryStore.apply_effects ∅ (refresh ∅)) = [].
Proof.
  apply (LibraryFacts.refresh_twice_writes_nothing example_media_info (fun l => l)
           (fun _ => "h1") true ["/m/a.flac"] None ∅).
  vm_compute. discriminate.
Defined.

End ExtraExamples.
